(** * csa_to_grizzly_domain: a shallow embedding of [tools/csa_to_grizzly_domain.py]

    The tool clones the security-analytics repository into a temporary
    directory, wipes and recreates a GRIZZLY domain directory, copies every
    [*.sql] script into it with a placeholder rewritten, writes one YAML
    descriptor per script and a [SCOPE.yml] manifest.

    Modelling choices.
    - A Python [str] is a list of 8-bit characters read as the code points
      below 256; [lower] is Python's [str.lower] on that range.
    - [bytes] are lists of [Byte.byte]; text decoded from a process is a list
      of code points ([N]), produced by a strict UTF-8 decoder.
    - Paths are those of [pathlib] on POSIX (Python 3.8 to 3.11): a path is
      its parts; two leading slashes are read as one.
    - The file system is that of Linux, as a tree whose directories list
      their entries in the order [os.scandir] yields them.  A regular file
      is given by the text its bytes decode to in the encoding of the
      locale, or is marked as one whose bytes do not decode; reading
      translates the line ends as Python does.  A name of more than 255
      bytes is refused by the kernel, a path with a NUL character by
      Python.
    - Look-up is lexical: there are no symbolic links, and a component [..]
      is not resolved.  The theorems on whole runs assume paths without
      [..]; they also assume the domain directory and the clone's script
      directory apart where the loop writes while the listing is consumed.
    - Not modelled: permissions, mount points, a full disk, and other
      processes changing the file system during the run.  The kernel also
      refuses a path of [PATH_MAX] bytes or more; the theorems on whole
      runs assume that the paths fit.
    - Exceptions are values; a computation threads the file system and
      returns either an exception or a result, together with the file system
      it leaves behind.
    - [yaml.safe_dump] and [subprocess.run] belong to the environment and are
      section variables; the module-level [TEMP_DIR] is a parameter of
      [main]. *)

From Stdlib Require Import List Ascii Bool Arith NArith ZArith Lia.
From Stdlib Require Strings.String Strings.Byte Numbers.DecimalString.
Import String.StringSyntax.
Import ListNotations.

Local Open Scope string_scope.
Local Open Scope list_scope.

Set Implicit Arguments.
Set Warnings "-register-all".

(** ** Python strings *)

Definition str := list ascii.

(** A string literal of the source. *)
Definition py (s : String.string) : str := String.list_ascii_of_string s.

Definition str_eqb (a b : str) : bool :=
  if list_eq_dec ascii_dec a b then true else false.

(** [str.lower()]: the upper-case letters below code point 256 are
    [A-Z], [U+00C0-U+00D6] and [U+00D8-U+00DE]; each maps 32 places up. *)
Definition lower_char (c : ascii) : ascii :=
  let n := N_of_ascii c in
  if ((65 <=? n) && (n <=? 90)
      || (192 <=? n) && (n <=? 222) && negb (n =? 215))%N
  then ascii_of_N (n + 32) else c.

Definition lower (s : str) : str := map lower_char s.

(** [s.split(sep, maxsplit)] for a one-character separator; [None] is the
    default [maxsplit = -1] (no limit). *)
Definition may_split (maxsplit : option nat) : bool :=
  match maxsplit with Some O => false | _ => true end.

Definition after_split (maxsplit : option nat) : option nat :=
  match maxsplit with Some n => Some (pred n) | None => None end.

Fixpoint split (sep : ascii) (maxsplit : option nat) (s : str) : list str :=
  match s with
  | [] => [[]]
  | c :: s' =>
      if Ascii.eqb c sep && may_split maxsplit
      then [] :: split sep (after_split maxsplit) s'
      else match split sep maxsplit s' with
           | piece :: rest => (c :: piece) :: rest
           | [] => [[c]]
           end
  end.

(** [sep.join(pieces)] *)
Fixpoint join (sep : str) (pieces : list str) : str :=
  match pieces with
  | [] => []
  | [p] => p
  | p :: rest => p ++ sep ++ join sep rest
  end.

(** [l[-1]] on a list of strings ([IndexError] cannot arise on the result of
    [split], which is never empty; the default is not reached there). *)
Definition last_item (l : list str) : str := last l [].

(** [s.startswith(p)] *)
Fixpoint startswith (p s : str) : bool :=
  match p, s with
  | [], _ => true
  | a :: p', b :: s' => Ascii.eqb a b && startswith p' s'
  | _ :: _, [] => false
  end.

(** [s.endswith(p)] *)
Definition endswith (p s : str) : bool :=
  (length p <=? length s) && str_eqb p (skipn (length s - length p) s).

(** [s.replace(old, new)]: scan from the left; at an occurrence of [old]
    emit [new] and resume after the occurrence, otherwise copy one
    character.  [skip] counts the characters of a matched occurrence still
    to be passed over. *)
Fixpoint replace_from (old new : str) (skip : nat) (s : str) : str :=
  match s with
  | [] => []
  | c :: s' =>
      match skip with
      | S k => replace_from old new k s'
      | O =>
          if startswith old s
          then new ++ replace_from old new (pred (length old)) s'
          else c :: replace_from old new 0 s'
      end
  end.

Definition replace (old new s : str) : str :=
  match old with
  | [] => new ++ flat_map (fun c => c :: new) s
  | _ :: _ => replace_from old new 0 s
  end.

(** [s.split(old)] for a non-empty string separator, by the same scan. *)
Fixpoint split_on_from (old : str) (skip : nat) (s : str) : list str :=
  match s with
  | [] => [[]]
  | c :: s' =>
      match skip with
      | S k => split_on_from old k s'
      | O =>
          if startswith old s
          then [] :: split_on_from old (pred (length old)) s'
          else match split_on_from old 0 s' with
               | piece :: rest => (c :: piece) :: rest
               | [] => [[c]]
               end
      end
  end.

Definition split_on (old s : str) : list str := split_on_from old 0 s.

(** [s.rfind('.')], as the number of characters before the last dot. *)
Fixpoint rfind (c : ascii) (s : str) : option nat :=
  match s with
  | [] => None
  | a :: s' =>
      match rfind c s' with
      | Some i => Some (S i)
      | None => if Ascii.eqb a c then Some 0 else None
      end
  end.

(** ** pathlib (pure POSIX paths)

    A path is its [parts]; an absolute path starts with the part ["/"]. *)

Definition path := list str.

(** The components one argument of [Path(...)] contributes: split at
    [/], empty components and [.] dropped. *)
Definition parse_segment (s : str) : list str :=
  filter (fun c => negb (str_eqb c []) && negb (str_eqb c (py ".")))
         (split "/" None s).

(** [p.joinpath(segments...)]: an absolute segment discards what precedes it. *)
Definition joinpath (p : path) (segments : list str) : path :=
  fold_left
    (fun acc s =>
       if startswith (py "/") s then py "/" :: parse_segment s
       else acc ++ parse_segment s)
    segments p.

(** [pathlib.Path(segments...)] *)
Definition Path (segments : list str) : path := joinpath [] segments.

(** The parts below the root. *)
Definition names (p : path) : list str :=
  match p with
  | r :: t => if str_eqb r (py "/") then t else p
  | [] => []
  end.

(** [p.name] *)
Definition name (p : path) : str := last (names p) [].

(** [stem] of a final component: the name up to its last dot, when that dot
    is neither the first nor the last character. *)
Definition stem_of (nm : str) : str :=
  match rfind "." nm with
  | Some i => if (0 <? i) && (i <? length nm - 1) then firstn i nm else nm
  | None => nm
  end.

(** [p.stem] *)
Definition stem (p : path) : str := stem_of (name p).

(** [str(p)] *)
Definition path_str (p : path) : str :=
  match p with
  | [] => py "."
  | r :: t => if str_eqb r (py "/") then py "/" ++ join (py "/") t
              else join (py "/") p
  end.

Fixpoint strip_prefix (base p : path) : option path :=
  match base, p with
  | [], _ => Some p
  | b :: base', c :: p' => if str_eqb b c then strip_prefix base' p' else None
  | _ :: _, [] => None
  end.

(** ** Exceptions *)

Definition text := list N.

Inductive errno :=
  ENOENT | ENOTDIR | EEXIST | EISDIR | EBUSY | EINVAL | ENAMETOOLONG.

Inductive exn :=
| Exception (msg : text)
| UnicodeDecodeError
| ValueError
| OSError (e : errno).

(** [p.relative_to(base)] raises [ValueError] unless [base] is a prefix. *)
Definition relative_to (p base : path) : exn + path :=
  match strip_prefix base p with
  | Some r => inr r
  | None => inl ValueError
  end.

(** ** [bytes.decode('utf-8')], strict *)

Definition byte := Byte.byte.

Definition is_cont (n : N) : bool := ((128 <=? n) && (n <=? 191))%N.

(** The second byte of a three-byte sequence: no overlong form, no
    surrogate. *)
Definition second_of3 (n0 n1 : N) : bool :=
  (if n0 =? 224 then (160 <=? n1) && (n1 <=? 191)
   else if n0 =? 237 then (128 <=? n1) && (n1 <=? 159)
   else is_cont n1)%N.

(** The second byte of a four-byte sequence: no overlong form, nothing
    above U+10FFFF. *)
Definition second_of4 (n0 n1 : N) : bool :=
  (if n0 =? 240 then (144 <=? n1) && (n1 <=? 191)
   else if n0 =? 244 then (128 <=? n1) && (n1 <=? 143)
   else is_cont n1)%N.

Fixpoint decode_utf8 (bs : list byte) : option text :=
  match bs with
  | [] => Some []
  | b0 :: r0 =>
      let n0 := Byte.to_N b0 in
      if (n0 <? 128)%N then option_map (cons n0) (decode_utf8 r0)
      else
        match r0 with
        | [] => None
        | b1 :: r1 =>
            let n1 := Byte.to_N b1 in
            if ((194 <=? n0) && (n0 <=? 223))%N then
              if is_cont n1
              then option_map (cons ((n0 - 192) * 64 + (n1 - 128))%N)
                              (decode_utf8 r1)
              else None
            else
              match r1 with
              | [] => None
              | b2 :: r2 =>
                  let n2 := Byte.to_N b2 in
                  if ((224 <=? n0) && (n0 <=? 239))%N then
                    if second_of3 n0 n1 && is_cont n2
                    then option_map
                           (cons (((n0 - 224) * 64 + (n1 - 128)) * 64
                                  + (n2 - 128))%N)
                           (decode_utf8 r2)
                    else None
                  else
                    match r2 with
                    | [] => None
                    | b3 :: r3 =>
                        let n3 := Byte.to_N b3 in
                        if ((240 <=? n0) && (n0 <=? 244))%N
                           && second_of4 n0 n1 && is_cont n2 && is_cont n3
                        then option_map
                               (cons ((((n0 - 240) * 64 + (n1 - 128)) * 64
                                       + (n2 - 128)) * 64 + (n3 - 128))%N)
                               (decode_utf8 r3)
                        else None
                    end
              end
        end
  end.

(** [b.decode('utf-8')] *)
Definition decode (bs : list byte) : exn + text :=
  match decode_utf8 bs with
  | Some t => inr t
  | None => inl UnicodeDecodeError
  end.

(** The code points of a literal. *)
Definition code_points (s : str) : text := map N_of_ascii s.

(** ** class ForeColor *)

Module ForeColor.
Definition esc (s : String.string) : text := 27%N :: code_points (py s).
Definition BLACK := esc "[30m".
Definition RED := esc "[31m".
Definition GREEN := esc "[32m".
Definition YELLOW := esc "[33m".
Definition BLUE := esc "[34m".
Definition MAGENTA := esc "[35m".
Definition CYAN := esc "[36m".
Definition WHITE := esc "[37m".
Definition RESET := esc "[39m".
Definition NONE := esc "[39m".
End ForeColor.

(** ** The file system

    [File data] is a regular file whose bytes decode to the text [data];
    [Binary] is a regular file whose bytes do not decode. *)

Inductive node :=
| File (data : str)
| Dir (entries : list (str * node))
| Binary.

Definition entries_t := list (str * node).

Fixpoint assoc (c : str) (es : entries_t) : option node :=
  match es with
  | [] => None
  | (k, n) :: es' => if str_eqb k c then Some n else assoc c es'
  end.

(** Replace the entry called [c], or add it at the end of the listing. *)
Fixpoint set_entry (c : str) (n : node) (es : entries_t) : entries_t :=
  match es with
  | [] => [(c, n)]
  | (k, m) :: es' =>
      if str_eqb k c then (k, n) :: es' else (k, m) :: set_entry c n es'
  end.

Definition del_entry (c : str) (es : entries_t) : entries_t :=
  filter (fun e => negb (str_eqb (fst e) c)) es.

(** A location is the list of names leading from the root to a node. *)
Definition location := list str.

Fixpoint find (loc : location) (n : node) : option node :=
  match loc with
  | [] => Some n
  | c :: r =>
      match n with
      | Dir es =>
          match assoc c es with
          | Some n1 => find r n1
          | None => None
          end
      | _ => None
      end
  end.

(** The length of a name in bytes, as the kernel counts it: the UTF-8 form
    of a code point below 128 is one byte, that of the others below 256 is
    two. *)
Definition name_bytes (c : str) : nat :=
  list_sum (map (fun a => if (N_of_ascii a <? 128)%N then 1 else 2) c).

Definition NAME_MAX : nat := 255.

Definition too_long (c : str) : bool := NAME_MAX <? name_bytes c.

(** Why a lookup fails: a file on the way, or a missing entry, whose name
    the kernel refuses when it is too long. *)
Fixpoint stat_errno (loc : location) (n : node) : errno :=
  match loc with
  | [] => ENOENT
  | c :: r =>
      match n with
      | Dir es =>
          match assoc c es with
          | Some n1 => stat_errno r n1
          | None => if too_long c then ENAMETOOLONG else ENOENT
          end
      | _ => ENOTDIR
      end
  end.

(** Replace the node at an existing location. *)
Fixpoint graft (loc : location) (d : node) (n : node) : node :=
  match loc with
  | [] => d
  | c :: r =>
      match n with
      | Dir es =>
          match assoc c es with
          | Some n1 => Dir (set_entry c (graft r d n1) es)
          | None => n
          end
      | _ => n
      end
  end.

(** Change the entry a location names: [f] sees the entry ([None] when the
    name is free) and answers with the entry to store ([None] to unlink). *)
Fixpoint update (f : option node -> exn + option node) (loc : location)
         (n : node) : exn + node :=
  match loc with
  | [] =>
      match f (Some n) with
      | inl e => inl e
      | inr (Some n') => inr n'
      | inr None => inl (OSError EBUSY)
      end
  | c :: r =>
      match n with
      | Dir es =>
          match r with
          | [] =>
              match f (assoc c es) with
              | inl e => inl e
              | inr (Some n') => inr (Dir (set_entry c n' es))
              | inr None => inr (Dir (del_entry c es))
              end
          | _ :: _ =>
              match assoc c es with
              | None => inl (OSError ENOENT)
              | Some n1 =>
                  match update f r n1 with
                  | inl e => inl e
                  | inr n1' => inr (Dir (set_entry c n1' es))
                  end
              end
          end
      | _ => inl (OSError ENOTDIR)
      end
  end.

(** [os.mkdir] under [Path.mkdir(exist_ok=True)]: an existing directory is
    accepted, an existing file is not; the parent must exist. *)
Definition mkdir_entry (e : option node) : exn + option node :=
  match e with
  | None => inr (Some (Dir []))
  | Some (Dir es) => inr (Some (Dir es))
  | Some _ => inl (OSError EEXIST)
  end.

(** Opening a path for writing: creates or truncates a file. *)
Definition write_entry (data : str) (e : option node) : exn + option node :=
  match e with
  | Some (Dir _) => inl (OSError EISDIR)
  | _ => inr (Some (File data))
  end.

(** [shutil.rmtree]: the path must be a directory. *)
Definition rmtree_entry (e : option node) : exn + option node :=
  match e with
  | Some (Dir _) => inr None
  | Some _ => inl (OSError ENOTDIR)
  | None => inl (OSError ENOENT)
  end.

(** A path with a NUL character in one of its parts. *)
Definition has_nul (p : list str) : bool :=
  existsb (existsb (Ascii.eqb "000")) p.

(** Universal newlines, as a file opened for reading text has them: a
    carriage return, with the line feed that follows it if there is one,
    is read as a line feed. *)
Fixpoint universal_newlines (s : str) : str :=
  match s with
  | [] => []
  | c :: s' =>
      if Ascii.eqb c "013" then
        "010"%char
          :: match s' with
             | d :: s'' =>
                 if Ascii.eqb d "010" then universal_newlines s''
                 else universal_newlines s'
             | [] => []
             end
      else c :: universal_newlines s'
  end.

(** ** [Path.glob('**/' + pattern)]

    The directory itself first, then each sub-directory in listing order;
    in every directory the entries whose name matches, files and
    directories alike. *)
Fixpoint rglob (matches : str -> bool) (n : node) : list location :=
  match n with
  | Dir es =>
      map (fun e => [fst e]) (filter (fun e => matches (fst e)) es)
      ++ flat_map
           (fun e => map (cons (fst e)) (rglob matches (snd e)))
           es
  | _ => []
  end.

(** ** Computations: file-system state and exceptions *)

Definition M (A : Type) : Type := node -> (exn + A) * node.

Definition ret {A} (a : A) : M A := fun fs => (inr a, fs).

Definition raise {A} (e : exn) : M A := fun fs => (inl e, fs).

Definition bind {A B} (c : M A) (k : A -> M B) : M B :=
  fun fs =>
    match c fs with
    | (inr a, fs') => k a fs'
    | (inl e, fs') => (inl e, fs')
    end.

(** A pure step that may raise. *)
Definition lift {A} (r : exn + A) : M A := fun fs => (r, fs).

Declare Scope py_scope.
Delimit Scope py_scope with py.
Notation "x <- c ;; k" := (bind c (fun x => k))
  (at level 61, c at next level, right associativity) : py_scope.
Notation "c ;; k" := (bind c (fun _ => k))
  (at level 61, right associativity) : py_scope.
Local Open Scope py_scope.

(** [for x in xs: acc = body x acc] *)
Fixpoint for_each {A S} (xs : list A) (body : A -> S -> M S) (acc : S)
  : M S :=
  match xs with
  | [] => ret acc
  | x :: xs' => acc' <- body x acc ;; for_each xs' body acc'
  end.

(** ** YAML documents, as handed to [yaml.safe_dump] *)

Inductive yaml :=
| YStr (s : str)
| YInt (z : Z)
| YSeq (items : list yaml)
| YMap (fields : list (str * yaml)).

(** [d[key].append(v)] *)
Definition dict_append (key : str) (v : yaml) (d : yaml) : yaml :=
  match d with
  | YMap fields =>
      YMap (map (fun kv =>
                   match kv with
                   | (k, YSeq items) =>
                       if str_eqb k key then (k, YSeq (items ++ [v])) else kv
                   | _ => kv
                   end) fields)
  | _ => d
  end.

(** [d[key]] *)
Fixpoint dict_get (key : str) (fields : list (str * yaml)) : option yaml :=
  match fields with
  | [] => None
  | (k, v) :: rest => if str_eqb k key then Some v else dict_get key rest
  end.

(** ** The program *)

Record CompletedProcess := {
  returncode : Z;
  stdout : list byte;
  stderr : list byte
}.

(** [argparse.Namespace] with the four required options. *)
Record Namespace := {
  grizzly_repo_path : str;
  domain_name : str;
  source_dataset : str;
  schedule_interval : str
}.

Definition PLACEHOLDER : str := py "[MY_PROJECT_ID].[MY_DATASET_ID]".

(** Line 92: [args.domain_name.lower().split('/')[-1]] *)
Definition dataset_name (domain : str) : str :=
  last_item (split "/" None (lower domain)).

(** Line 111: [dataset_name + '.' + str(f.stem.lower()).split('_', 2)[-1]] *)
Definition csa_file_name (dataset : str) (f_stem : str) : str :=
  dataset ++ py "." ++ last_item (split "_" (Some 2) (lower f_stem)).

(** Lines 118-119: [f.read_text().replace(placeholder, args.source_dataset)] *)
Definition sql_file_data (source : str) (body : str) : str :=
  replace PLACEHOLDER source body.

(** Lines 120-124 *)
Definition yml_file_data (csa : str) (sql_rel : path) : yaml :=
  YMap [ (py "target_table_name", YStr csa);
         (py "job_write_mode", YStr (py "WRITE_TRUNCATE"));
         (py "stage_loading_query", YStr (path_str sql_rel)) ].

(** Lines 99-103 *)
Definition csa_scope_init (interval : str) : yaml :=
  YMap [ (py "schedule_interval", YStr interval);
         (py "execution_timeout_per_table", YInt 1200);
         (py "etl_scope", YSeq []) ].

(** The paths [base.glob('**/*.sql')] yields, relative to [base], when
    [clone] is what the file system holds at [base]: nothing unless it is a
    directory; a path is yielded once. *)
Definition listing (clone : option node) : list location :=
  match clone with
  | Some (Dir es) =>
      nodup (list_eq_dec (list_eq_dec ascii_dec))
            (rglob (endswith (py ".sql")) (Dir es))
  | _ => []
  end.

Section Program.

(** The working directory of the process, as a location. *)
Variable cwd : location.

(** [subprocess.run(arguments, check=False, stdout=PIPE, stderr=PIPE)]:
    the operating system runs the command, which may change the file
    system, and reports how it ended, or fails to start it. *)
Variable subprocess_run : list str -> M CompletedProcess.

(** [yaml.safe_dump] *)
Variable safe_dump : yaml -> str.

(** Where the operating system looks a path up, for a path without a
    component [..]: such a component is not resolved here. *)
Definition locate (p : path) : location :=
  match p with
  | [] => cwd
  | r :: t => if str_eqb r (py "/") then t else cwd ++ p
  end.

(** A path that is refused before anything is looked at or done: Python
    raises [ValueError] on a NUL character, the kernel answers
    [ENAMETOOLONG] when it gets to a missing name of more than [NAME_MAX]
    bytes.  A path that leads to a node is looked up without error. *)
Definition refusal (p : path) (fs : node) : option exn :=
  match find (locate p) fs with
  | Some _ => None
  | None =>
      if has_nul p then Some ValueError
      else match stat_errno (locate p) fs with
           | ENAMETOOLONG => Some (OSError ENAMETOOLONG)
           | _ => None
           end
  end.

(** [p.exists()]: [ValueError] and the errors of a missing path are taken
    for an answer, any other error of [stat] is raised. *)
Definition exists_ (p : path) : M bool :=
  fun fs =>
    match refusal p fs with
    | Some (OSError e) => (inl (OSError e), fs)
    | Some _ => (inr false, fs)
    | None =>
        (inr (match find (locate p) fs with Some _ => true | None => false end),
         fs)
    end.

Definition run_update (f : option node -> exn + option node) (p : path)
  : M unit :=
  fun fs =>
    match refusal p fs with
    | Some e => (inl e, fs)
    | None =>
        match update f (locate p) fs with
        | inr fs' => (inr tt, fs')
        | inl e => (inl e, fs)
        end
    end.

(** [shutil.rmtree(p)]: the directory is emptied, then removed by
    [os.rmdir(p)], which fails with [EINVAL] when [p] is [.] and with
    [EBUSY] on the root: these two are emptied and stay. *)
Definition rmtree (p : path) : M unit :=
  fun fs =>
    match find (locate p) fs with
    | Some (Dir _) =>
        match p, locate p with
        | [], _ => (inl (OSError EINVAL), graft (locate p) (Dir []) fs)
        | _, [] => (inl (OSError EBUSY), Dir [])
        | _, _ => run_update rmtree_entry p fs
        end
    | _ => run_update rmtree_entry p fs
    end.

(** [p.mkdir(exist_ok=True)] *)
Definition mkdir (p : path) : M unit := run_update mkdir_entry p.

(** [p.write_text(data)] *)
Definition write_text (p : path) (data : str) : M unit :=
  run_update (write_entry data) p.

(** [p.read_text()]: the bytes are decoded, strictly, and the line ends
    translated. *)
Definition read_text (p : path) : M str :=
  fun fs =>
    match find (locate p) fs with
    | Some (File data) => (inr (universal_newlines data), fs)
    | Some (Dir _) => (inl (OSError EISDIR), fs)
    | Some Binary => (inl UnicodeDecodeError, fs)
    | None =>
        (inl (if has_nul p then ValueError
              else OSError (stat_errno (locate p) fs)), fs)
    end.

(** [base.glob('**/*.sql')]: nothing unless [base] is a directory, which
    [is_dir] finds out as [exists] does.  The loop consumes the generator
    while it writes; the paths are listed here when the loop starts, which
    is what the loop sees as long as it does not write below [base]. *)
Definition glob_sql (base : path) : M (list path) :=
  fun fs =>
    match refusal base fs with
    | Some (OSError e) => (inl (OSError e), fs)
    | _ =>
        (inr (map (fun rel => base ++ rel) (listing (find (locate base) fs))),
         fs)
    end.

(** Lines 60-85 *)
Definition run_command (arguments : list str) : M text :=
  cmd_result <- subprocess_run arguments ;;
  if negb (returncode cmd_result =? 0)%Z then
    err <- lift (decode (stderr cmd_result)) ;;
    raise (Exception (ForeColor.RED ++ err ++ ForeColor.RESET))
  else
    lift (decode (stdout cmd_result)).

(** Lines 111-127: the body of the loop, for one globbed file [f]. *)
Definition transform (args : Namespace) (grizzly_path : path)
           (dataset : str) (f : path) (csa_scope : yaml) : M yaml :=
  let csa := csa_file_name dataset (stem f) in
  let sql_file := joinpath grizzly_path [py "queries"; csa ++ py ".sql"] in
  let yml_file := joinpath grizzly_path [csa ++ py ".yml"] in
  body <- read_text f ;;
  let sql_data := sql_file_data (source_dataset args) body in
  sql_rel <- lift (relative_to sql_file grizzly_path) ;;
  let yml_data := yml_file_data csa sql_rel in
  write_text yml_file (safe_dump yml_data) ;;
  write_text sql_file sql_data ;;
  ret (dict_append (py "etl_scope") (YStr (stem yml_file)) csa_scope).

(** Lines 104-108: clean up the target folder. *)
Definition reset_domain (grizzly_path : path) : M unit :=
  present <- exists_ grizzly_path ;;
  (if present then rmtree grizzly_path else ret tt) ;;
  mkdir grizzly_path ;;
  mkdir (joinpath grizzly_path [py "queries"]).

(** Lines 88-131; [TEMP_DIR] is the module-level temporary directory. *)
Definition main (TEMP_DIR : path) (args : Namespace) : M unit :=
  let grizzly_path :=
    Path [grizzly_repo_path args; domain_name args] in
  let scope_file := joinpath grizzly_path [py "SCOPE.yml"] in
  let dataset := dataset_name (domain_name args) in
  let shell_cmd :=
    [py "gh"; py "repo"; py "clone";
     py "GoogleCloudPlatform/security-analytics"; path_str TEMP_DIR] in
  cmd_result <- run_command shell_cmd ;;
  let csa_scope := csa_scope_init (schedule_interval args) in
  reset_domain grizzly_path ;;
  files <- glob_sql
             (joinpath TEMP_DIR [py "backends"; py "bigquery"; py "sql"]) ;;
  csa_scope <- for_each files (transform args grizzly_path dataset)
                        csa_scope ;;
  write_text scope_file (safe_dump csa_scope).

(** Lines 109-129: what [main] goes on with once the domain directory is
    reset. *)
Definition copy_scripts (TEMP_DIR : path) (args : Namespace) : M unit :=
  let grizzly_path :=
    Path [grizzly_repo_path args; domain_name args] in
  let scope_file := joinpath grizzly_path [py "SCOPE.yml"] in
  let dataset := dataset_name (domain_name args) in
  files <- glob_sql
             (joinpath TEMP_DIR [py "backends"; py "bigquery"; py "sql"]) ;;
  csa_scope <- for_each files (transform args grizzly_path dataset)
                        (csa_scope_init (schedule_interval args)) ;;
  write_text scope_file (safe_dump csa_scope).

End Program.

(** ** Vocabulary of the specification *)

(** Lower-casing neither makes nor removes the separator [sep]. *)
Definition keeps (sep : ascii) : Prop :=
  forall c, Ascii.eqb (lower_char c) sep = Ascii.eqb c sep.

(** The number of occurrences of a character. *)
Definition count (c : ascii) (s : str) : nat := count_occ ascii_dec s c.

(** The underscore-delimited tokens of a stem. *)
Definition tokens (s : str) : list str := split "_" None s.

(** A stem with its first [k] underscore-delimited tokens dropped. *)
Definition drop_tokens (k : nat) (s : str) : str :=
  join (py "_") (skipn k (tokens s)).

(** [old] occurs in [s]. *)
Definition occurs (old s : str) : Prop := exists a b, s = a ++ old ++ b.

(** No proper suffix of [p] is a prefix of [p]: two occurrences of [p]
    never overlap. *)
Definition border_free (p : str) : bool :=
  forallb (fun d => negb (startswith (skipn d p) p)) (seq 1 (length p - 1)).

(** Two locations part ways: neither leads to the other. *)
Fixpoint diverge (p q : location) : bool :=
  match p, q with
  | a :: p', b :: q' => if str_eqb a b then diverge p' q' else true
  | _, _ => false
  end.

(** A name a directory can hold: it has no [/]. *)
Definition valid_name (nm : str) : bool := negb (existsb (Ascii.eqb "/") nm).

Definition find_in (clone : option node) (rel : location) : option node :=
  match clone with
  | Some d => find rel d
  | None => None
  end.

(** A regular file that holds text. *)
Definition is_file (o : option node) : bool :=
  match o with Some (File _) => true | _ => false end.

Definition is_dir (o : option node) : bool :=
  match o with Some (Dir _) => true | _ => false end.

(** The text [read_text] returns for a regular file. *)
Definition body_of (o : option node) : str :=
  match o with Some (File data) => universal_newlines data | _ => [] end.

(** The scripts of a clone: stem and text of every listed path, in listing
    order. *)
Definition scripts (clone : option node) : list (str * str) :=
  map (fun rel => (stem_of (last rel []), body_of (find_in clone rel)))
      (listing clone).

(** A path string the kernel takes: it has fewer than [PATH_MAX] bytes,
    the final NUL counted. *)
Definition PATH_MAX : nat := 4096.

Definition fits (p : path) : bool := name_bytes (path_str p) <? PATH_MAX.

(** A path without a component [..]: the location it names lexically is
    the one the operating system gets to. *)
Definition plain (p : path) : bool :=
  forallb (fun c => negb (str_eqb c (py ".."))) p.




Section Domain.

Variable cwd : location.
Variable safe_dump : yaml -> str.
Variable TEMP_DIR : path.
Variable args : Namespace.

Definition grizzly_path_of : path :=
  Path [grizzly_repo_path args; domain_name args].

Definition sql_dir_of : path :=
  joinpath TEMP_DIR [py "backends"; py "bigquery"; py "sql"].

(** The command line of the clone (lines 94-97). *)
Definition clone_command : list str :=
  [py "gh"; py "repo"; py "clone";
   py "GoogleCloudPlatform/security-analytics"; path_str TEMP_DIR].

(** The paths of a run are plain: neither the path of the domain
    directory nor that of the clone has a component [..], the working
    directory is a directory of the file system, and the path of the
    script directory and the longest path the run can write, that of a
    name of [NAME_MAX] bytes in [queries], fit. *)
Definition plain_paths (fs : node) : bool :=
  plain grizzly_path_of && plain TEMP_DIR && is_dir (find cwd fs)
  && fits (grizzly_path_of ++ [py "queries"; repeat "n"%char NAME_MAX])
  && fits sql_dir_of.

(** The two directories of a run are named plainly and lie apart: neither
    directory leads to the other; the names the listing of the script
    directory yields are names a directory can hold; and every path below
    the script directory fits. *)
Definition apart (fs : node) : bool :=
  plain_paths fs
  && diverge (locate cwd grizzly_path_of) (locate cwd sql_dir_of)
  && forallb (fun rel => valid_name (last rel []))
             (listing (find (locate cwd sql_dir_of) fs))
  && forallb (fun rel => fits (sql_dir_of ++ rel))
             (match find (locate cwd sql_dir_of) fs with
              | Some clone => rglob (fun _ => true) clone
              | None => []
              end).

(** The derived base name of a script. *)
Definition derived (s : str * str) : str :=
  csa_file_name (dataset_name (domain_name args)) (fst s).

(** The descriptor of a derived name. *)
Definition descriptor (csa : str) : yaml :=
  YMap [ (py "target_table_name", YStr csa);
         (py "job_write_mode", YStr (py "WRITE_TRUNCATE"));
         (py "stage_loading_query",
          YStr (py "queries/" ++ csa ++ py ".sql")) ].

(** Copying one script into the [queries] listing. *)
Definition add_query (es : entries_t) (s : str * str) : entries_t :=
  set_entry (derived s ++ py ".sql")
            (File (sql_file_data (source_dataset args) (snd s))) es.

(** Writing one descriptor into the listing of the domain root. *)
Definition add_descriptor (es : entries_t) (s : str * str) : entries_t :=
  set_entry (derived s ++ py ".yml")
            (File (safe_dump (descriptor (derived s)))) es.

(** The [queries] directory after the scripts [ss] were copied in turn. *)
Definition queries_entries (ss : list (str * str)) : entries_t :=
  fold_left add_query ss [].

(** The descriptors at the domain root after the scripts [ss]. *)
Definition descriptor_entries (ss : list (str * str)) : entries_t :=
  fold_left add_descriptor ss [].

(** The scope manifest listing [names]. *)
Definition scope_with (names : list str) : yaml :=
  YMap [ (py "schedule_interval", YStr (schedule_interval args));
         (py "execution_timeout_per_table", YInt 1200);
         (py "etl_scope", YSeq (map YStr names)) ].

(** The domain directory a run over the scripts [ss] builds. *)
Definition domain_of (ss : list (str * str)) : node :=
  Dir ((py "queries", Dir (queries_entries ss))
         :: descriptor_entries ss
         ++ [(py "SCOPE.yml",
              File (safe_dump (scope_with (map derived ss))))]).

End Domain.

(** A listing that holds regular files only. *)
Definition all_files (es : entries_t) : Prop :=
  Forall (fun e => exists data, snd e = File data) es.

(** A proper path component: no [/], not empty, not [.]. *)
Definition component (s : str) : Prop :=
  valid_name s = true /\ s <> [] /\ s <> py ".".

(** Raising, as opposed to returning. *)
Definition raises {A} (r : (exn + A) * node) : Prop :=
  match fst r with inl _ => True | inr _ => False end.

(** ** The scenario of the specification, as data *)

Module Scenario.

Definition TEMP_DIR : path := Path [py "/tmp/csa.k3v9q2x1"].

Definition args : Namespace :=
  {| grizzly_repo_path := py "/repo";
     domain_name := py "team/bas_csa";
     source_dataset := py "proj.ds";
     schedule_interval := py "@daily" |}.

Definition script_text : str :=
  py "SELECT * FROM [MY_PROJECT_ID].[MY_DATASET_ID].events".

(** What the clone brings: one script below [backends/bigquery/sql]. *)
Definition upstream : node :=
  Dir [ (py "README.md", File (py "Community Security Analytics"));
        (py "backends",
         Dir [ (py "bigquery",
                Dir [ (py "sql",
                       Dir [ (py "csa_failed_logins.sql",
                              File script_text) ]) ]) ]) ].

(** The disk before the run: the fresh temporary directory, and a domain
    directory with a stale descriptor. *)
Definition disk : node :=
  Dir [ (py "tmp", Dir [ (py "csa.k3v9q2x1", Dir []) ]);
        (py "repo",
         Dir [ (py "team",
                Dir [ (py "bas_csa",
                       Dir [ (py "stale.yml", File (py "old")) ]) ]) ]) ].

(** A clone that succeeds: it fills the directory its last argument names
    and exits with 0. *)
Definition gh_clone (arguments : list str) : M CompletedProcess :=
  fun fs =>
    match update (fun _ => inr (Some upstream))
                 (parse_segment (last arguments [])) fs with
    | inr fs' =>
        (inr {| returncode := 0; stdout := []; stderr := [] |}, fs')
    | inl _ =>
        (inr {| returncode := 1; stdout := [];
                stderr := String.list_byte_of_string "fatal: no such path" |},
         fs)
    end.

(** A clone that fails: it leaves the disk alone and exits with 1. *)
Definition gh_fails (arguments : list str) : M CompletedProcess :=
  fun fs =>
    (inr {| returncode := 1; stdout := [];
            stderr := String.list_byte_of_string "fatal: not logged in" |},
     fs).

(** A process that exits with 0 after printing a byte that is no UTF-8. *)
Definition prints_latin1 (arguments : list str) : M CompletedProcess :=
  fun fs =>
    (inr {| returncode := 0; stdout := [Byte.xff]; stderr := [] |}, fs).

(** A clone whose two scripts have the same derived name. *)
Definition twins : node :=
  Dir [ (py "backends",
         Dir [ (py "bigquery",
                Dir [ (py "sql",
                       Dir [ (py "1_01_logins.sql", File (py "SELECT 1"));
                             (py "cloudaudit",
                              Dir [ (py "2_07_Logins.sql",
                                     File (py "SELECT 2")) ]) ]) ]) ]) ].

Definition gh_clone_twins (arguments : list str) : M CompletedProcess :=
  fun fs =>
    match update (fun _ => inr (Some twins))
                 (parse_segment (last arguments [])) fs with
    | inr fs' =>
        (inr {| returncode := 0; stdout := []; stderr := [] |}, fs')
    | inl _ =>
        (inr {| returncode := 1; stdout := [];
                stderr := String.list_byte_of_string "fatal: no such path" |},
         fs)
    end.



(** A stand-in for [yaml.safe_dump] where an example needs a concrete one:
    one line per field, a list as its items in brackets.  Every theorem
    holds for any serializer. *)
Definition toy_scalar (v : yaml) : str :=
  match v with
  | YStr s => s
  | YInt z => py (DecimalString.NilZero.string_of_int (Z.to_int z))
  | _ => []
  end.

Definition toy_dump (v : yaml) : str :=
  match v with
  | YMap fields =>
      flat_map
        (fun kv =>
           fst kv ++ py ": "
           ++ match snd kv with
              | YSeq items =>
                  py "[" ++ join (py ", ") (map toy_scalar items) ++ py "]"
              | w => toy_scalar w
              end
           ++ ["010"%char])
        fields
  | w => toy_scalar w
  end.

(** The disk the run leaves, for a serializer [dump]. *)
Definition final (dump : yaml -> str) : node :=
  Dir [ (py "tmp", Dir [ (py "csa.k3v9q2x1", upstream) ]);
        (py "repo",
         Dir [ (py "team",
                Dir [ (py "bas_csa",
                       Dir [ (py "queries",
                              Dir [ (py "bas_csa.logins.sql",
                                     File (py "SELECT * FROM proj.ds.events"))
                                  ]);
                             (py "bas_csa.logins.yml",
                              File (dump
                                      (YMap
                                         [ (py "target_table_name",
                                            YStr (py "bas_csa.logins"));
                                           (py "job_write_mode",
                                            YStr (py "WRITE_TRUNCATE"));
                                           (py "stage_loading_query",
                                            YStr (py "queries/bas_csa.logins.sql"))
                                         ])));
                             (py "SCOPE.yml",
                              File (dump
                                      (YMap
                                         [ (py "schedule_interval",
                                            YStr (py "@daily"));
                                           (py "execution_timeout_per_table",
                                            YInt 1200);
                                           (py "etl_scope",
                                            YSeq [YStr (py "bas_csa.logins")])
                                         ]))) ]) ]) ]) ].

End Scenario.

(** ** Further vocabulary *)

(** A computation changes nothing apart from [G]: whether it returns or
    raises, a location that parts ways with [G] holds afterwards what it
    held before. *)
Definition confined {A : Type} (G : location) (c : M A) : Prop :=
  forall fs q, diverge G q = true -> find q (snd (c fs)) = find q fs.

(** Bytes of 7-bit text. *)
Definition seven_bit (bs : list byte) : bool :=
  forallb (fun b => (Byte.to_N b <? 128)%N) bs.

(** A regular file where a directory is looked for. *)
Definition on_the_way (o : option node) : bool :=
  match o with Some (File _) | Some Binary => true | _ => false end.

(** The names a listing holds, in listing order. *)
Definition keys (es : entries_t) : list str := map fst es.

(** ** Further cases, as data *)

Module Cases.

(** A clone that brings [tree]. *)
Definition gh_clone_of (tree : node) (arguments : list str)
  : M CompletedProcess :=
  fun fs =>
    match update (fun _ => inr (Some tree))
                 (parse_segment (last arguments [])) fs with
    | inr fs' =>
        (inr {| returncode := 0; stdout := []; stderr := [] |}, fs')
    | inl _ =>
        (inr {| returncode := 1; stdout := [];
                stderr := String.list_byte_of_string "fatal: no such path" |},
         fs)
    end.

(** A repository without the directory [team]. *)
Definition disk_without_team : node :=
  Dir [ (py "tmp", Dir [ (py "csa.k3v9q2x1", Dir []) ]);
        (py "repo", Dir []) ].


(** A clone with a directory called like a script between two scripts. *)
Definition with_directory : node :=
  Dir [ (py "backends",
         Dir [ (py "bigquery",
                Dir [ (py "sql",
                       Dir [ (py "1_01_logins.sql", File (py "SELECT 1"));
                             (py "2_02_archive.sql", Dir []);
                             (py "3_03_keys.sql", File (py "SELECT 3")) ])
                    ]) ]) ].

(** A clone whose script has the line ends of another system. *)
Definition with_crlf : node :=
  Dir [ (py "backends",
         Dir [ (py "bigquery",
                Dir [ (py "sql",
                       Dir [ (py "1_01_logins.sql",
                              File (py "SELECT 1" ++ ["013"; "010"]%char
                                       ++ py "FROM t" ++ ["013"%char])) ])
                    ]) ]) ].

(** A clone whose script is no text: its bytes do not decode. *)
Definition with_binary : node :=
  Dir [ (py "backends",
         Dir [ (py "bigquery",
                Dir [ (py "sql",
                       Dir [ (py "1_01_logins.sql", Binary) ]) ]) ]) ].





(** A clone whose script has a name of 254 bytes: the descriptor would
    need 262. *)
Definition with_long_name : node :=
  Dir [ (py "backends",
         Dir [ (py "bigquery",
                Dir [ (py "sql",
                       Dir [ (repeat "a"%char 250 ++ py ".sql",
                              File (py "SELECT 1")) ]) ]) ]) ].

(** Arguments that make the working directory the domain directory. *)
Definition args_here : Namespace :=
  {| grizzly_repo_path := py ".";
     domain_name := py ".";
     source_dataset := py "proj.ds";
     schedule_interval := py "@daily" |}.

(** Arguments that make [/tmp] the domain directory. *)
Definition args_tmp : Namespace :=
  {| grizzly_repo_path := py "/";
     domain_name := py "tmp";
     source_dataset := py "proj.ds";
     schedule_interval := py "@daily" |}.

End Cases.

(** * Properties *)

Unset Implicit Arguments.

(** ** Strings *)

Lemma str_eqb_eq a b : str_eqb a b = true <-> a = b.
Proof.
  unfold str_eqb. destruct (list_eq_dec ascii_dec a b); split; congruence.
Qed.

Lemma str_eqb_refl a : str_eqb a a = true.
Proof. now apply str_eqb_eq. Qed.

Lemma str_eqb_neq a b : a <> b -> str_eqb a b = false.
Proof.
  intros H. destruct (str_eqb a b) eqn:E; [|reflexivity].
  apply str_eqb_eq in E. contradiction.
Qed.

Lemma lower_app a b : lower (a ++ b) = lower a ++ lower b.
Proof. apply map_app. Qed.

(** Lower-casing neither makes nor removes an underscore or a slash. *)
Lemma lower_char_sep c :
  (lower_char c = "_"%char <-> c = "_"%char)
  /\ (lower_char c = "/"%char <-> c = "/"%char).
Proof.
  destruct c as [[] [] [] [] [] [] [] []]; vm_compute;
    split; split; intros H; (reflexivity || discriminate H).
Qed.

Lemma keeps_underscore : keeps "_".
Proof.
  intros c. destruct (lower_char_sep c) as [[H1 H2] _].
  destruct (Ascii.eqb_spec c "_") as [E|E].
  - apply Ascii.eqb_eq. auto.
  - apply Ascii.eqb_neq. intros F. apply E. auto.
Qed.

Lemma keeps_slash : keeps "/".
Proof.
  intros c. destruct (lower_char_sep c) as [_ [H1 H2]].
  destruct (Ascii.eqb_spec c "/") as [E|E].
  - apply Ascii.eqb_eq. auto.
  - apply Ascii.eqb_neq. intros F. apply E. auto.
Qed.

Lemma split_not_nil sep m s : split sep m s <> [].
Proof.
  destruct s as [|c s]; simpl; [discriminate|].
  destruct (Ascii.eqb c sep && may_split m); [discriminate|].
  destruct (split sep m s); discriminate.
Qed.

(** Splitting commutes with lower-casing for a separator lower-casing
    keeps. *)
Lemma split_lower sep m s :
  keeps sep -> split sep m (lower s) = map lower (split sep m s).
Proof.
  intros K. revert m. induction s as [|c s IH]; intros m; [reflexivity|].
  simpl. rewrite K.
  destruct (Ascii.eqb c sep && may_split m).
  - simpl. now rewrite IH.
  - rewrite IH. destruct (split sep m s) as [|p r] eqn:E.
    + now apply split_not_nil in E.
    + reflexivity.
Qed.

Lemma last_item_map_lower l :
  last_item (map lower l) = lower (last_item l).
Proof.
  unfold last_item. induction l as [|a [|b l] IH]; try reflexivity.
  exact IH.
Qed.

Lemma split_zero sep s : split sep (Some 0) s = [s].
Proof.
  induction s as [|c s IH]; [reflexivity|].
  simpl. rewrite andb_false_r, IH. reflexivity.
Qed.

Lemma join_cons sep p q rest :
  join sep (p :: q :: rest) = p ++ sep ++ join sep (q :: rest).
Proof. reflexivity. Qed.

(** Joining the pieces of an unlimited split gives the string back. *)
Lemma join_split sep s : join [sep] (split sep None s) = s.
Proof.
  induction s as [|c s IH]; [reflexivity|].
  simpl. destruct (Ascii.eqb_spec c sep) as [->|N]; simpl.
  - destruct (split sep None s) as [|p r] eqn:E.
    + now apply split_not_nil in E.
    + now rewrite IH.
  - destruct (split sep None s) as [|p r] eqn:E.
    + now apply split_not_nil in E.
    + destruct r as [|q r]; simpl in *; now rewrite <- IH.
Qed.

(** A split limited to [k] cuts: the first pieces of the unlimited split,
    then the rest of the string in one piece. *)
Lemma split_limited sep k s :
  let n := Nat.min k (count sep s) in
  split sep (Some k) s
  = firstn n (split sep None s)
    ++ [join [sep] (skipn n (split sep None s))].
Proof.
  revert k. induction s as [|c s IH]; intros k; cbv zeta.
  - simpl. rewrite Nat.min_0_r. reflexivity.
  - destruct k as [|k].
    + rewrite split_zero, Nat.min_0_l. cbn [firstn skipn app].
      now rewrite join_split.
    + unfold count in *. cbn [split count_occ may_split after_split pred].
      destruct (Ascii.eqb_spec c sep) as [->|N].
      * destruct (ascii_dec sep sep); [|contradiction].
        cbn [andb]. rewrite IH. reflexivity.
      * destruct (ascii_dec c sep); [contradiction|].
        cbn [andb]. rewrite IH.
        destruct (split sep None s) as [|p r] eqn:E.
        { now apply split_not_nil in E. }
        destruct (Nat.min (S k) (count_occ ascii_dec s sep)) as [|j];
          cbn [firstn skipn app].
        { destruct r; reflexivity. }
        reflexivity.
Qed.

Lemma last_item_snoc l x : last_item (l ++ [x]) = x.
Proof. unfold last_item. apply last_last. Qed.

(** What [split(sep, k)[-1]] is, in terms of tokens. *)
Lemma last_split_limited sep k s :
  last_item (split sep (Some k) s)
  = join [sep] (skipn (Nat.min k (count sep s)) (split sep None s)).
Proof. rewrite split_limited. apply last_item_snoc. Qed.

Lemma lower_join sep l :
  lower (join sep l) = join (lower sep) (map lower l).
Proof.
  induction l as [|p [|q l] IH]; try reflexivity.
  rewrite join_cons. cbn [map]. rewrite join_cons.
  rewrite !lower_app. f_equal. f_equal. exact IH.
Qed.

Lemma count_lower sep s : keeps sep -> count sep (lower s) = count sep s.
Proof.
  intros K. unfold count. induction s as [|c s IH]; [reflexivity|].
  simpl. specialize (K c).
  destruct (ascii_dec (lower_char c) sep) as [E|E];
    destruct (ascii_dec c sep) as [F|F]; rewrite IH; try reflexivity.
  - apply Ascii.eqb_eq in E. rewrite K in E. apply Ascii.eqb_eq in E.
    contradiction.
  - apply Ascii.eqb_eq in F. rewrite <- K in F. apply Ascii.eqb_eq in F.
    contradiction.
Qed.

(** The suffix of the derived name, for every stem. *)
Lemma derived_suffix f_stem :
  last_item (split "_" (Some 2) (lower f_stem))
  = lower (drop_tokens (Nat.min 2 (count "_" f_stem)) f_stem).
Proof.
  rewrite last_split_limited, count_lower by apply keeps_underscore.
  unfold drop_tokens, tokens. rewrite lower_join.
  rewrite split_lower by apply keeps_underscore.
  now rewrite skipn_map.
Qed.

Lemma dataset_name_lower domain :
  dataset_name domain = lower (last_item (split "/" None domain)).
Proof.
  unfold dataset_name. rewrite split_lower by apply keeps_slash.
  apply last_item_map_lower.
Qed.

(** ** The scan of [replace] and [split] *)

Lemma startswith_app p r : startswith p (p ++ r) = true.
Proof.
  induction p as [|a p IH]; [reflexivity|].
  simpl. now rewrite Ascii.eqb_refl.
Qed.

Lemma startswith_spec p s : startswith p s = true <-> exists r, s = p ++ r.
Proof.
  split.
  - revert s. induction p as [|a p IH]; intros s H.
    + now exists s.
    + destruct s as [|b s]; [discriminate|].
      simpl in H. apply andb_prop in H as [E H].
      apply Ascii.eqb_eq in E. subst b.
      destruct (IH _ H) as [r ->]. now exists r.
  - intros [r ->]. apply startswith_app.
Qed.

(** A prefix that starts inside [x] and runs past its end continues at the
    start of what follows. *)
Lemma startswith_overrun p x s :
  startswith p (x ++ s) = true -> length x < length p ->
  startswith (skipn (length x) p) s = true.
Proof.
  revert p. induction x as [|a x IH]; intros p H L.
  - exact H.
  - destruct p as [|b p]; [simpl in L; lia|].
    simpl in H. apply andb_prop in H as [_ H].
    simpl in L. apply IH; [exact H | lia].
Qed.

Lemma startswith_within q p r :
  startswith q (p ++ r) = true -> length q <= length p ->
  startswith q p = true.
Proof.
  revert p. induction q as [|a q IH]; intros p H L; [reflexivity|].
  destruct p as [|b p]; [simpl in L; lia|].
  simpl in *. apply andb_prop in H as [E H]. rewrite E. simpl.
  apply IH; [exact H | lia].
Qed.

Lemma startswith_inside p x s :
  startswith p (x ++ s) = true -> length p <= length x ->
  exists b, x = p ++ b.
Proof.
  intros H L. apply startswith_spec. eapply startswith_within; eassumption.
Qed.

Lemma border_free_spec p d :
  border_free p = true -> 1 <= d < length p ->
  startswith (skipn d p) p = false.
Proof.
  unfold border_free. intros H L.
  rewrite forallb_forall in H. specialize (H d).
  apply negb_true_iff, H, in_seq. lia.
Qed.

Lemma occurs_cons old a s : occurs old s -> occurs old (a :: s).
Proof. intros (x & y & ->). now exists (a :: x), y. Qed.

Lemma occurs_startswith old s : startswith old s = true -> occurs old s.
Proof. intros H. apply startswith_spec in H as [r ->]. now exists [], r. Qed.

Section Scan.

Variables (c0 : ascii) (old' : str).
Let old := c0 :: old'.
Variable new : str.

Lemma split_on_from_skip k pre r :
  length pre = k ->
  split_on_from old k (pre ++ r) = split_on_from old 0 r.
Proof.
  revert k. induction pre as [|a pre IH]; intros k L; simpl in L; subst k.
  - reflexivity.
  - simpl. now apply IH.
Qed.

Lemma split_on_from_not_nil k s : split_on_from old k s <> [].
Proof.
  revert k. induction s as [|a s IH]; intros k; cbn [split_on_from];
    [discriminate|].
  destruct k as [|k]; [|apply IH].
  destruct (startswith old (a :: s)); [discriminate|].
  destruct (split_on_from old 0 s); discriminate.
Qed.

(** Replacing is splitting at the occurrences and joining with [new]. *)
Lemma replace_from_join k s :
  replace_from old new k s = join new (split_on_from old k s).
Proof.
  revert k. induction s as [|a s IH]; intros k; [reflexivity|].
  cbn [replace_from split_on_from]. destruct k as [|k]; [|apply IH].
  destruct (startswith old (a :: s)).
  - rewrite IH.
    destruct (split_on_from old (pred (length old)) s) as [|p r] eqn:E.
    + now apply split_on_from_not_nil in E.
    + reflexivity.
  - rewrite IH. destruct (split_on_from old 0 s) as [|p r] eqn:E.
    + now apply split_on_from_not_nil in E.
    + destruct r; reflexivity.
Qed.

(** Joining the pieces with [old] gives back what was scanned. *)
Lemma join_split_on_from k s :
  join old (split_on_from old k s) = skipn k s.
Proof.
  revert k. induction s as [|a s IH]; intros k.
  - now destruct k.
  - cbn [split_on_from]. destruct k as [|k]; [|apply IH].
    destruct (startswith old (a :: s)) eqn:E.
    + destruct (split_on_from old (pred (length old)) s) as [|p r] eqn:F.
      { now apply split_on_from_not_nil in F. }
      rewrite join_cons, <- F, IH.
      apply startswith_spec in E as [t E]. unfold old in E.
      injection E as -> ->. unfold old. cbn [length pred app].
      now rewrite skipn_app, skipn_all, Nat.sub_diag.
    + specialize (IH 0). cbn [skipn] in IH |- *.
      destruct (split_on_from old 0 s) as [|p r] eqn:F.
      { now apply split_on_from_not_nil in F. }
      destruct r; simpl in *; now rewrite <- IH.
Qed.

Lemma split_on_head_prefix s p r :
  split_on_from old 0 s = p :: r -> exists t, s = p ++ t.
Proof.
  revert p r. induction s as [|a s IH]; intros p r H.
  - injection H as <- <-. now exists [].
  - cbn [split_on_from] in H. destruct (startswith old (a :: s)).
    + injection H as <- _. now exists (a :: s).
    + destruct (split_on_from old 0 s) as [|q r'] eqn:F.
      { now apply split_on_from_not_nil in F. }
      injection H as <- <-. destruct (IH _ _ eq_refl) as [t ->].
      now exists t.
Qed.

Lemma not_occurs_nil : ~ occurs old [].
Proof.
  intros (x & y & H). destruct x; discriminate H.
Qed.

(** No piece of the split contains [old]. *)
Lemma split_on_from_pieces k s :
  Forall (fun p => ~ occurs old p) (split_on_from old k s).
Proof.
  revert k. induction s as [|a s IH]; intros k.
  - constructor; [apply not_occurs_nil | constructor].
  - cbn [split_on_from]. destruct k as [|k]; [|apply IH].
    destruct (startswith old (a :: s)) eqn:E.
    + constructor; [apply not_occurs_nil | apply IH].
    + specialize (IH 0).
      destruct (split_on_from old 0 s) as [|p r] eqn:F.
      { now apply split_on_from_not_nil in F. }
      inversion IH as [|? ? Hp Hr]; subst. constructor; [|exact Hr].
      intros (x & y & H). destruct x as [|b x].
      * destruct (split_on_head_prefix _ _ _ F) as [t ->].
        assert (startswith old (a :: p ++ t) = true) as S.
        { apply startswith_spec. exists (y ++ t).
          change (a :: p ++ t) with ((a :: p) ++ t).
          rewrite H. simpl. now rewrite <- app_assoc. }
        congruence.
      * injection H as -> ->. apply Hp. now exists x, y.
Qed.

Hypothesis no_border : border_free old = true.

(** At a position before an occurrence that follows an occurrence-free
    stretch, [old] does not start. *)
Lemma no_early_match a x r :
  ~ occurs old (a :: x) -> startswith old ((a :: x) ++ old ++ r) = false.
Proof.
  intros N. destruct (startswith old ((a :: x) ++ old ++ r)) eqn:E;
    [exfalso | reflexivity].
  destruct (Nat.le_gt_cases (length old) (length (a :: x))) as [L|L].
  - destruct (startswith_inside _ _ _ E L) as [b H].
    apply N. exists [], b. exact H.
  - pose proof (startswith_overrun _ _ _ E L) as O.
    apply startswith_within in O.
    + rewrite border_free_spec in O; [discriminate | exact no_border |].
      simpl in *. lia.
    + rewrite length_skipn. lia.
Qed.

Lemma split_on_occurrence x r :
  ~ occurs old x ->
  split_on_from old 0 (x ++ old ++ r) = x :: split_on_from old 0 r.
Proof.
  induction x as [|a x IH]; intros N.
  - cbn [app]. unfold old at 2. cbn [app split_on_from].
    fold old. change (c0 :: old' ++ r) with (old ++ r).
    rewrite startswith_app. f_equal.
    apply split_on_from_skip. reflexivity.
  - change ((a :: x) ++ old ++ r) with (a :: (x ++ old ++ r)).
    cbn [split_on_from].
    change (a :: (x ++ old ++ r)) with ((a :: x) ++ old ++ r).
    rewrite (no_early_match _ _ r N), IH; [reflexivity|].
    intros O. apply N. now apply occurs_cons.
Qed.

Lemma split_on_no_occurrence x :
  ~ occurs old x -> split_on_from old 0 x = [x].
Proof.
  induction x as [|a x IH]; intros N; [reflexivity|].
  cbn [split_on_from]. destruct (startswith old (a :: x)) eqn:E.
  - exfalso. apply N. now apply occurs_startswith.
  - rewrite IH; [reflexivity|].
    intros O. apply N. now apply occurs_cons.
Qed.

(** A string cut at [old] into occurrence-free pieces splits back into
    these pieces: the decomposition is unique. *)
Lemma split_on_join pieces :
  pieces <> [] -> Forall (fun p => ~ occurs old p) pieces ->
  split_on_from old 0 (join old pieces) = pieces.
Proof.
  induction pieces as [|p [|q rest] IH]; intros NE F; [contradiction| |].
  - inversion F; subst. now apply split_on_no_occurrence.
  - inversion F; subst. rewrite join_cons, split_on_occurrence by assumption.
    f_equal. apply IH; [discriminate | assumption].
Qed.

End Scan.

(** ** Derived names *)

(** C1: for a stem with at least two underscores, the derived base name is
    the dataset name, a dot, and the lower-cased stem without its first two
    underscore-delimited tokens; the dataset name is the lower-cased last
    [/]-delimited segment of the domain name. *)
Theorem C1_derived_name (domain f_stem : str) :
  2 <= count "_" f_stem ->
  csa_file_name (dataset_name domain) f_stem
  = dataset_name domain ++ py "." ++ lower (drop_tokens 2 f_stem)
  /\ dataset_name domain = lower (last_item (split "/" None domain)).
Proof.
  intros H. split; [|apply dataset_name_lower].
  unfold csa_file_name. rewrite derived_suffix.
  now rewrite Nat.min_l by exact H.
Qed.

Lemma C1_derived_name_witness :
  2 <= count "_" (py "1_01_Login_From_Unapproved_Identity")
  /\ csa_file_name (dataset_name (py "Team/BAS_csa"))
                   (py "1_01_Login_From_Unapproved_Identity")
     = py "bas_csa.login_from_unapproved_identity".
Proof.
  split; [vm_compute; lia|].
  refine (eq_trans
            (proj1 (C1_derived_name (py "Team/BAS_csa")
                      (py "1_01_Login_From_Unapproved_Identity") _)) _).
  - vm_compute; lia.
  - reflexivity.
Defined.

(** C9: splitting with at most two cuts and taking the last piece is total
    and drops no more tokens than the stem has: none without an underscore,
    where the whole lower-cased stem is the suffix, and only the first with
    exactly one underscore. *)
Theorem C9_fewer_underscores (dataset f_stem : str) :
  csa_file_name dataset f_stem
  = dataset ++ py "."
    ++ lower (drop_tokens (Nat.min 2 (count "_" f_stem)) f_stem)
  /\ (count "_" f_stem = 0 ->
      csa_file_name dataset f_stem = dataset ++ py "." ++ lower f_stem)
  /\ (count "_" f_stem = 1 ->
      csa_file_name dataset f_stem
      = dataset ++ py "." ++ lower (drop_tokens 1 f_stem)).
Proof.
  unfold csa_file_name. rewrite derived_suffix. repeat split.
  - intros ->. cbn [Nat.min]. unfold drop_tokens, tokens.
    cbn [skipn]. change (py "_") with ["_"%char]. now rewrite join_split.
  - now intros ->.
Qed.

Lemma C9_fewer_underscores_witness :
  (count "_" (py "Logins") = 0
   /\ csa_file_name (py "bas_csa") (py "Logins") = py "bas_csa.logins")
  /\ (count "_" (py "csa_Logins") = 1
      /\ csa_file_name (py "bas_csa") (py "csa_Logins")
         = py "bas_csa.logins").
Proof.
  split; (split; [reflexivity|]).
  - exact (proj1 (proj2 (C9_fewer_underscores (py "bas_csa") (py "Logins")))
                 eq_refl).
  - exact (proj2 (proj2 (C9_fewer_underscores (py "bas_csa")
                                              (py "csa_Logins")))
                 eq_refl).
Defined.

(** ** Placeholder substitution *)

Lemma placeholder_cons :
  PLACEHOLDER = "["%char :: py "MY_PROJECT_ID].[MY_DATASET_ID]".
Proof. reflexivity. Qed.

Lemma placeholder_border_free : border_free PLACEHOLDER = true.
Proof. vm_compute. reflexivity. Qed.

Lemma sql_file_data_join source body :
  sql_file_data source body = join source (split_on PLACEHOLDER body).
Proof.
  unfold sql_file_data, split_on. rewrite placeholder_cons.
  apply replace_from_join.
Qed.

Lemma not_occurs_by_scan body :
  split_on PLACEHOLDER body = [body] -> ~ occurs PLACEHOLDER body.
Proof.
  unfold split_on. rewrite placeholder_cons. intros H.
  pose proof (split_on_from_pieces "[" (py "MY_PROJECT_ID].[MY_DATASET_ID]")
                                   0 body) as F.
  rewrite H in F. now inversion F.
Qed.

(** C3: the transformed text is the body with every occurrence of the
    placeholder replaced by the source dataset: the body is cut at the
    placeholder into pieces free of it, and the text is these pieces joined
    by the source dataset, whichever way the body is so cut; a body without
    the placeholder is unchanged. *)
Theorem C3_placeholder_replaced (source body : str) :
  (exists pieces,
      body = join PLACEHOLDER pieces
      /\ Forall (fun p => ~ occurs PLACEHOLDER p) pieces
      /\ sql_file_data source body = join source pieces)
  /\ (forall pieces,
         pieces <> [] ->
         Forall (fun p => ~ occurs PLACEHOLDER p) pieces ->
         body = join PLACEHOLDER pieces ->
         sql_file_data source body = join source pieces)
  /\ (~ occurs PLACEHOLDER body -> sql_file_data source body = body).
Proof.
  assert (forall pieces,
             pieces <> [] ->
             Forall (fun p => ~ occurs PLACEHOLDER p) pieces ->
             body = join PLACEHOLDER pieces ->
             sql_file_data source body = join source pieces) as U.
  { intros pieces NE F ->. rewrite sql_file_data_join. f_equal.
    unfold split_on. revert F. rewrite placeholder_cons. intros F.
    apply split_on_join; try assumption.
    rewrite <- placeholder_cons. apply placeholder_border_free. }
  split; [|split; [exact U|]].
  - exists (split_on PLACEHOLDER body). unfold split_on.
    rewrite sql_file_data_join. unfold split_on.
    rewrite placeholder_cons. repeat split.
    + now rewrite join_split_on_from.
    + apply split_on_from_pieces.
  - intros N. apply (U [body]); [discriminate | | reflexivity].
    constructor; [exact N | constructor].
Qed.

Lemma C3_placeholder_replaced_witness :
  sql_file_data (py "proj.ds")
    (py "SELECT * FROM [MY_PROJECT_ID].[MY_DATASET_ID].events")
  = py "SELECT * FROM proj.ds.events"
  /\ sql_file_data (py "proj.ds") (py "SELECT 1 FROM [my_project_id].t")
     = py "SELECT 1 FROM [my_project_id].t".
Proof.
  split.
  - apply (proj1 (proj2 (C3_placeholder_replaced (py "proj.ds")
      (py "SELECT * FROM [MY_PROJECT_ID].[MY_DATASET_ID].events")))
      [py "SELECT * FROM "; py ".events"]).
    + discriminate.
    + repeat constructor; apply not_occurs_by_scan; reflexivity.
    + reflexivity.
  - apply (proj2 (proj2 (C3_placeholder_replaced (py "proj.ds")
      (py "SELECT 1 FROM [my_project_id].t")))).
    apply not_occurs_by_scan. reflexivity.
Defined.

(** ** Directory listings *)

Lemma assoc_set_same c n es : assoc c (set_entry c n es) = Some n.
Proof.
  induction es as [|[k m] es IH]; simpl.
  - now rewrite str_eqb_refl.
  - destruct (str_eqb k c) eqn:E; simpl; rewrite E; [reflexivity | exact IH].
Qed.

Lemma assoc_set_other c c' n es :
  c <> c' -> assoc c' (set_entry c n es) = assoc c' es.
Proof.
  intros N. induction es as [|[k m] es IH]; simpl.
  - now rewrite str_eqb_neq.
  - destruct (str_eqb k c) eqn:E; simpl.
    + apply str_eqb_eq in E. subst k. now rewrite str_eqb_neq.
    + now rewrite IH.
Qed.

Lemma assoc_del_same c es : assoc c (del_entry c es) = None.
Proof.
  induction es as [|[k m] es IH]; [reflexivity|].
  unfold del_entry in *. simpl.
  destruct (str_eqb k c) eqn:E; simpl; [exact IH|]. now rewrite E.
Qed.

Lemma assoc_del_other c c' es :
  c <> c' -> assoc c' (del_entry c es) = assoc c' es.
Proof.
  intros N. induction es as [|[k m] es IH]; [reflexivity|].
  unfold del_entry in *. simpl.
  destruct (str_eqb k c) eqn:E; simpl.
  - apply str_eqb_eq in E. subst k. now rewrite str_eqb_neq.
  - now rewrite IH.
Qed.

(** ** Lookups and updates in the tree *)

Lemma find_app p r n :
  find (p ++ r) n
  = match find p n with Some d => find r d | None => None end.
Proof.
  revert n. induction p as [|c p IH]; intros n; [reflexivity|].
  simpl. destruct n as [|es|]; [reflexivity| |reflexivity].
  destruct (assoc c es); [apply IH | reflexivity].
Qed.

Lemma update_leaf f c n :
  update f [c] n
  = match n with
    | Dir es =>
        match f (assoc c es) with
        | inl e => inl e
        | inr (Some n') => inr (Dir (set_entry c n' es))
        | inr None => inr (Dir (del_entry c es))
        end
    | _ => inl (OSError ENOTDIR)
    end.
Proof. reflexivity. Qed.

Lemma update_step f c r n :
  r <> [] ->
  update f (c :: r) n
  = match n with
    | Dir es =>
        match assoc c es with
        | None => inl (OSError ENOENT)
        | Some n1 =>
            match update f r n1 with
            | inl e => inl e
            | inr n1' => inr (Dir (set_entry c n1' es))
            end
        end
    | _ => inl (OSError ENOTDIR)
    end.
Proof. destruct r; [contradiction | reflexivity]. Qed.

(** An update below an existing node is an update of that node, grafted
    back. *)
Lemma update_app f p r n d :
  find p n = Some d -> r <> [] ->
  update f (p ++ r) n
  = match update f r d with
    | inl e => inl e
    | inr d' => inr (graft p d' n)
    end.
Proof.
  intros H NE. revert n H. induction p as [|c p IH]; intros n H.
  - injection H as ->. simpl. now destruct (update f r d).
  - simpl in H. destruct n as [|es|]; [discriminate| |discriminate].
    destruct (assoc c es) as [n1|] eqn:A; [|discriminate].
    change ((c :: p) ++ r) with (c :: (p ++ r)).
    rewrite update_step by (destruct p; [exact NE | discriminate]).
    rewrite A, (IH _ H). simpl. rewrite A.
    now destruct (update f r d).
Qed.

Lemma find_graft_same p d n :
  find p n <> None -> find p (graft p d n) = Some d.
Proof.
  revert n. induction p as [|c p IH]; intros n H; [reflexivity|].
  simpl in *. destruct n as [|es|]; [contradiction| |contradiction].
  destruct (assoc c es) as [n1|] eqn:A; [|contradiction].
  simpl. rewrite assoc_set_same. now apply IH.
Qed.

Lemma find_graft_diverge p q d n :
  diverge p q = true -> find q (graft p d n) = find q n.
Proof.
  revert q n. induction p as [|c p IH]; intros q n H; [discriminate|].
  destruct q as [|b q]; [discriminate|].
  simpl in *. destruct n as [|es|]; [reflexivity| |reflexivity].
  destruct (assoc c es) as [n1|] eqn:A; [|reflexivity].
  simpl. destruct (str_eqb c b) eqn:E.
  - apply str_eqb_eq in E. subst b. rewrite assoc_set_same, A.
    now apply IH.
  - rewrite assoc_set_other; [reflexivity|].
    intros ->. now rewrite str_eqb_refl in E.
Qed.

(** After a successful update the location holds what [f] answered. *)
Lemma update_find_same f loc n n' :
  loc <> [] -> update f loc n = inr n' ->
  exists r, f (find loc n) = inr r /\ find loc n' = r.
Proof.
  revert n n'. induction loc as [|c r IH]; intros n n' NE H; [contradiction|].
  destruct r as [|c' r].
  - rewrite update_leaf in H. destruct n as [|es|]; [discriminate| |discriminate].
    simpl. destruct (assoc c es) as [m|] eqn:A.
    + destruct (f (Some m)) as [e|[m'|]]; [discriminate| |];
        injection H as <-; eexists; (split; [reflexivity|]); simpl.
      * now rewrite assoc_set_same.
      * now rewrite assoc_del_same.
    + destruct (f None) as [e|[m'|]]; [discriminate| |];
        injection H as <-; eexists; (split; [reflexivity|]); simpl.
      * now rewrite assoc_set_same.
      * now rewrite assoc_del_same.
  - rewrite update_step in H by discriminate.
    destruct n as [|es|]; [discriminate| |discriminate].
    destruct (assoc c es) as [n1|] eqn:A; [|discriminate].
    destruct (update f (c' :: r) n1) as [e|n1'] eqn:U; [discriminate|].
    injection H as <-.
    destruct (IH _ _ ltac:(discriminate) U) as (x & Hf & Hx).
    exists x. split.
    + cbn [find]. rewrite A. exact Hf.
    + cbn [find]. rewrite assoc_set_same. exact Hx.
Qed.

(** An update leaves alone what lies apart from its location. *)
Lemma update_diverge f loc q n n' :
  diverge loc q = true -> update f loc n = inr n' -> find q n' = find q n.
Proof.
  revert q n n'. induction loc as [|c r IH]; intros q n n' D H;
    [discriminate|].
  destruct q as [|b q]; [discriminate|].
  simpl in D. destruct r as [|c' r].
  - rewrite update_leaf in H. destruct n as [|es|]; [discriminate| |discriminate].
    destruct (str_eqb c b) eqn:E; [discriminate|].
    assert (c <> b) as N by (intros ->; now rewrite str_eqb_refl in E).
    destruct (f (assoc c es)) as [e|[m'|]]; [discriminate| |];
      injection H as <-; simpl.
    + now rewrite assoc_set_other.
    + now rewrite assoc_del_other.
  - rewrite update_step in H by discriminate.
    destruct n as [|es|]; [discriminate| |discriminate].
    destruct (assoc c es) as [n1|] eqn:A; [|discriminate].
    destruct (update f (c' :: r) n1) as [e|n1'] eqn:U; [discriminate|].
    injection H as <-. simpl.
    destruct (str_eqb c b) eqn:E.
    + apply str_eqb_eq in E. subst b. rewrite assoc_set_same, A.
      eapply IH; eassumption.
    + rewrite assoc_set_other; [reflexivity|].
      intros ->. now rewrite str_eqb_refl in E.
Qed.

(** ** Paths *)

Lemma valid_name_spec s : valid_name s = true <-> ~ In "/"%char s.
Proof.
  unfold valid_name. rewrite negb_true_iff. split.
  - intros H I. assert (existsb (Ascii.eqb "/") s = true) as E.
    { apply existsb_exists. exists "/"%char. split; [exact I | reflexivity]. }
    congruence.
  - intros N. destruct (existsb (Ascii.eqb "/") s) eqn:E; [|reflexivity].
    apply existsb_exists in E as (x & I & E).
    apply Ascii.eqb_eq in E. subst x. contradiction.
Qed.

Lemma split_no_sep sep m s : ~ In sep s -> split sep m s = [s].
Proof.
  revert m. induction s as [|c s IH]; intros m N; [reflexivity|].
  simpl. destruct (Ascii.eqb_spec c sep) as [->|E].
  - exfalso. apply N. now left.
  - simpl. rewrite IH; [reflexivity|]. intros I. apply N. now right.
Qed.

Lemma parse_segment_component s : component s -> parse_segment s = [s].
Proof.
  intros (V & NE & ND). unfold parse_segment.
  rewrite split_no_sep by now apply valid_name_spec.
  simpl. now rewrite !str_eqb_neq.
Qed.

Lemma component_not_root s : component s -> startswith (py "/") s = false.
Proof.
  intros (V & NE & _). apply valid_name_spec in V.
  destruct s as [|c s]; [contradiction|].
  change (py "/") with ["/"%char]. cbn [startswith].
  destruct (Ascii.eqb_spec "/" c) as [<-|E]; [|reflexivity].
  exfalso. apply V. now left.
Qed.

Lemma joinpath_components p l :
  Forall component l -> joinpath p l = p ++ l.
Proof.
  unfold joinpath. revert p. induction l as [|s l IH]; intros p F.
  - simpl. now rewrite app_nil_r.
  - inversion F; subst. cbn [fold_left].
    rewrite component_not_root, parse_segment_component by assumption.
    rewrite IH by assumption. now rewrite <- app_assoc.
Qed.

Lemma component_not_slash s : component s -> str_eqb s (py "/") = false.
Proof.
  intros (V & _). apply str_eqb_neq. intros ->. discriminate V.
Qed.

Lemma locate_app cwd p r :
  Forall component r -> locate cwd (p ++ r) = locate cwd p ++ r.
Proof.
  intros F. destruct p as [|a p].
  - destruct r as [|b r]; simpl.
    + now rewrite app_nil_r.
    + inversion F; subst. now rewrite component_not_slash.
  - cbn [locate app]. destruct (str_eqb a (py "/")); [reflexivity|].
    now rewrite <- app_assoc.
Qed.

Lemma strip_prefix_app p r : strip_prefix p (p ++ r) = Some r.
Proof.
  induction p as [|a p IH]; [reflexivity|].
  simpl. now rewrite str_eqb_refl.
Qed.

Lemma last_app_ne (p r : list str) d :
  r <> [] -> last (p ++ r) d = last r d.
Proof.
  intros NE. induction p as [|a p IH]; [reflexivity|].
  simpl. destruct (p ++ r) eqn:E; [|exact IH].
  apply app_eq_nil in E as [_ ->]. contradiction.
Qed.

(** The name of a path that ends in the components [rel]. *)
Lemma name_app p rel :
  rel <> [] -> p <> [] \/ Forall component rel ->
  name (p ++ rel) = last rel [].
Proof.
  intros NE H. unfold name, names. destruct p as [|a p].
  - destruct H as [H|F]; [contradiction|].
    destruct rel as [|b rel]; [contradiction|].
    inversion F; subst. cbn [app].
    now rewrite component_not_slash.
  - cbn [app]. destruct (str_eqb a (py "/")).
    + now apply last_app_ne.
    + change (a :: p ++ rel) with ((a :: p) ++ rel). now apply last_app_ne.
Qed.

Lemma rfind_app c a b :
  rfind c (a ++ b)
  = match rfind c b with
    | Some i => Some (length a + i)
    | None => rfind c a
    end.
Proof.
  induction a as [|x a IH]; simpl.
  - now destruct (rfind c b).
  - rewrite IH. now destruct (rfind c b).
Qed.

(** The stem of a name with a three-letter suffix. *)
Lemma stem_of_suffixed s x y z :
  s <> [] -> x <> "."%char -> y <> "."%char -> z <> "."%char ->
  stem_of (s ++ ["."; x; y; z]%char) = s.
Proof.
  intros NE X Y Z. unfold stem_of. rewrite rfind_app.
  assert (rfind "." ["."; x; y; z]%char = Some 0) as ->.
  { simpl. apply Ascii.eqb_neq in X, Y, Z. now rewrite X, Y, Z. }
  rewrite Nat.add_0_r, length_app. simpl.
  destruct s as [|c s]; [contradiction|].
  replace (0 <? length (c :: s)) with true
    by (symmetry; apply Nat.ltb_lt; simpl; lia).
  replace (length (c :: s) <? length (c :: s) + 4 - 1) with true
    by (symmetry; apply Nat.ltb_lt; simpl; lia).
  simpl andb. cbv iota.
  now rewrite firstn_app, firstn_all, Nat.sub_diag, app_nil_r.
Qed.

Lemma split_pieces_incl sep m s p :
  In p (split sep m s) -> incl p s.
Proof.
  revert m p. induction s as [|c s IH]; intros m p H.
  - destruct H as [<-|[]]. apply incl_refl.
  - simpl in H. destruct (Ascii.eqb c sep && may_split m).
    + destruct H as [<-|H]; [intros x []|].
      apply incl_tl. eapply IH. exact H.
    + destruct (split sep m s) as [|q r] eqn:E.
      { now apply split_not_nil in E. }
      destruct H as [<-|H].
      * apply incl_cons; [now left|].
        apply incl_tl. apply (IH m). rewrite E. now left.
      * apply incl_tl. apply (IH m). rewrite E. now right.
Qed.

Lemma last_item_in l : l <> [] -> In (last_item l) l.
Proof.
  unfold last_item. induction l as [|a [|b l] IH]; intros NE.
  - contradiction.
  - now left.
  - right. apply IH. discriminate.
Qed.

Lemma last_split_incl sep m s : incl (last_item (split sep m s)) s.
Proof.
  eapply split_pieces_incl. apply last_item_in, split_not_nil.
Qed.

Lemma split_all_pieces sep s :
  Forall (fun p => ~ In sep p) (split sep None s).
Proof.
  induction s as [|c s IH]; simpl.
  - constructor; [intros [] | constructor].
  - destruct (Ascii.eqb_spec c sep) as [->|N]; simpl.
    + constructor; [intros [] | exact IH].
    + destruct (split sep None s) as [|p r] eqn:E.
      { now apply split_not_nil in E. }
      inversion IH; subst. constructor; [|assumption].
      intros [H|H]; [now apply N | contradiction].
Qed.

Lemma valid_lower s : valid_name s = true -> valid_name (lower s) = true.
Proof.
  rewrite !valid_name_spec. intros N I. apply N.
  unfold lower in I. apply in_map_iff in I as (c & E & I).
  apply (proj2 (lower_char_sep c)) in E. now subst c.
Qed.

Lemma valid_dataset_name domain : valid_name (dataset_name domain) = true.
Proof.
  apply valid_name_spec. unfold dataset_name.
  pose proof (split_all_pieces "/" (lower domain)) as F.
  rewrite Forall_forall in F. apply F, last_item_in, split_not_nil.
Qed.

Lemma valid_stem_of nm : valid_name nm = true -> valid_name (stem_of nm) = true.
Proof.
  rewrite !valid_name_spec. intros N I. apply N. unfold stem_of in I.
  destruct (rfind "." nm) as [i|]; [|exact I].
  destruct ((0 <? i) && (i <? length nm - 1)); [|exact I].
  rewrite <- (firstn_skipn i nm). apply in_or_app. now left.
Qed.

Lemma valid_app a b :
  valid_name a = true -> valid_name b = true -> valid_name (a ++ b) = true.
Proof.
  rewrite !valid_name_spec. intros A B I.
  apply in_app_or in I as [I|I]; auto.
Qed.

Lemma valid_csa_file_name dataset f_stem :
  valid_name dataset = true -> valid_name f_stem = true ->
  valid_name (csa_file_name dataset f_stem) = true.
Proof.
  intros D S. unfold csa_file_name.
  apply valid_app; [exact D|]. apply valid_app; [reflexivity|].
  apply valid_name_spec. intros I.
  apply last_split_incl in I. apply valid_lower in S.
  now apply valid_name_spec in S.
Qed.

Lemma csa_suffixed_component dataset f_stem ext :
  valid_name dataset = true -> valid_name f_stem = true ->
  valid_name ext = true -> ext <> [] ->
  component (csa_file_name dataset f_stem ++ ext).
Proof.
  intros D S E NE. split; [|split].
  - apply valid_app; [now apply valid_csa_file_name | exact E].
  - intros H. apply app_eq_nil in H as [_ H]. contradiction.
  - unfold csa_file_name. intros H.
    apply (f_equal (@length ascii)) in H. rewrite !length_app in H.
    destruct ext; [contradiction|]. simpl in H. lia.
Qed.

Lemma csa_file_name_not_nil dataset f_stem : csa_file_name dataset f_stem <> [].
Proof.
  unfold csa_file_name. intros H.
  apply app_eq_nil in H as [_ H]. discriminate H.
Qed.

Lemma locate_app_ne cwd p r :
  p <> [] -> locate cwd (p ++ r) = locate cwd p ++ r.
Proof.
  intros NE. destruct p as [|a p]; [contradiction|].
  cbn [locate app]. destruct (str_eqb a (py "/")); [reflexivity|].
  now rewrite <- app_assoc.
Qed.

Lemma set_entry_fresh c n es :
  assoc c es = None -> set_entry c n es = es ++ [(c, n)].
Proof.
  induction es as [|[k m] es IH]; [reflexivity|].
  simpl. destruct (str_eqb k c); [discriminate|].
  intros H. now rewrite IH.
Qed.

Lemma all_files_set c data es :
  all_files es -> all_files (set_entry c (File data) es).
Proof.
  unfold all_files. induction es as [|[k m] es IH]; intros F; simpl.
  - constructor; [now exists data | constructor].
  - inversion F; subst. destruct (str_eqb k c).
    + constructor; [now exists data | assumption].
    + constructor; [assumption | now apply IH].
Qed.

Lemma all_files_write c data es :
  all_files es -> write_entry data (assoc c es) = inr (Some (File data)).
Proof.
  unfold all_files. induction es as [|[k m] es IH]; intros F; [reflexivity|].
  inversion F as [|? ? [d Hd] F']; subst. simpl in *.
  destruct (str_eqb k c); [now rewrite Hd | now apply IH].
Qed.

(** The names the tool writes are neither [queries] nor [SCOPE.yml]. *)
Lemma yml_not_queries csa : csa ++ py ".yml" <> py "queries".
Proof.
  intros H.
  change (py ".yml") with (py ".ym" ++ ["l"%char]) in H.
  change (py "queries") with (py "querie" ++ ["s"%char]) in H.
  rewrite app_assoc in H. apply app_inj_tail in H as [_ H]. discriminate H.
Qed.

Lemma scope_not_descriptor dataset f_stem :
  csa_file_name dataset f_stem ++ py ".yml" <> py "SCOPE.yml".
Proof.
  change (py "SCOPE.yml") with (py "SCOPE" ++ py ".yml").
  intros H. apply app_inv_tail in H.
  assert (In "."%char (py "SCOPE")) as I.
  { rewrite <- H. unfold csa_file_name.
    apply in_or_app. right. now left. }
  simpl in I. repeat destruct I as [I|I]; try discriminate I. exact I.
Qed.

Lemma dict_append_scope args names csa :
  dict_append (py "etl_scope") (YStr csa) (scope_with args names)
  = scope_with args (names ++ [csa]).
Proof.
  unfold scope_with, dict_append. cbn [map].
  rewrite str_eqb_refl. now rewrite (map_app YStr).
Qed.

(** ** Running the steps *)

Lemma yml_file_data_descriptor csa :
  yml_file_data csa [py "queries"; csa ++ py ".sql"] = descriptor csa.
Proof. reflexivity. Qed.

Lemma queries_component : component (py "queries").
Proof. repeat split; discriminate. Qed.

Lemma scope_component : component (py "SCOPE.yml").
Proof. repeat split; discriminate. Qed.

Ltac components :=
  repeat (apply Forall_cons; [assumption|]); apply Forall_nil.

Section Run.

Variable cwd : location.
Variable subprocess_run : list str -> M CompletedProcess.
Variable safe_dump : yaml -> str.


Lemma refusal_missing p fs e :
  refusal cwd p fs = Some e -> find (locate cwd p) fs = None.
Proof.
  unfold refusal. destruct (find (locate cwd p) fs); [discriminate|].
  reflexivity.
Qed.

(** An update that returns was not refused, and is the update of the
    tree. *)
Lemma run_update_returns f p fs fs' :
  run_update cwd f p fs = (inr tt, fs') ->
  refusal cwd p fs = None /\ update f (locate cwd p) fs = inr fs'.
Proof.
  unfold run_update. destruct (refusal cwd p fs); [discriminate|].
  destruct (update f (locate cwd p) fs); [discriminate|].
  intros H. injection H as <-. auto.
Qed.

(** An update that raises leaves the file system alone. *)
Lemma run_update_raises f p fs e fs' :
  run_update cwd f p fs = (inl e, fs') -> fs' = fs.
Proof.
  unfold run_update. destruct (refusal cwd p fs).
  - intros H. now injection H.
  - destruct (update f (locate cwd p) fs); [|discriminate].
    intros H. now injection H.
Qed.

Lemma run_update_below f p G r d fs :
  locate cwd p = G ++ r -> r <> [] -> find G fs = Some d ->
  run_update cwd f p fs
  = match refusal cwd p fs with
    | Some e => (inl e, fs)
    | None =>
        match update f r d with
        | inr d' => (inr tt, graft G d' fs)
        | inl e => (inl e, fs)
        end
    end.
Proof.
  intros L NE H. unfold run_update.
  destruct (refusal cwd p fs); [reflexivity|].
  rewrite L, (update_app f G r fs d H NE). now destruct (update f r d).
Qed.

(** One turn of the loop on a text file, seen from the domain directory:
    unless one of the two names is refused, it adds the descriptor, then
    the script. *)
Lemma transform_run args gp dataset f scope fs Q Y data :
  find (locate cwd gp) fs = Some (Dir ((py "queries", Dir Q) :: Y)) ->
  all_files Q -> all_files Y ->
  find (locate cwd f) fs = Some (File data) ->
  valid_name dataset = true -> valid_name (stem f) = true ->
  let csa := csa_file_name dataset (stem f) in
  let Y' := set_entry (csa ++ py ".yml")
                      (File (safe_dump (descriptor csa))) Y in
  let Q' := set_entry (csa ++ py ".sql")
                      (File (sql_file_data (source_dataset args)
                                           (universal_newlines data))) Q in
  let fs1 := graft (locate cwd gp) (Dir ((py "queries", Dir Q) :: Y')) fs in
  let fs2 := graft (locate cwd gp) (Dir ((py "queries", Dir Q') :: Y')) fs1 in
  transform cwd safe_dump args gp dataset f scope fs
  = match refusal cwd (gp ++ [csa ++ py ".yml"]) fs with
    | Some e => (inl e, fs)
    | None =>
        match refusal cwd (gp ++ [py "queries"; csa ++ py ".sql"]) fs1 with
        | Some e => (inl e, fs1)
        | None => (inr (dict_append (py "etl_scope") (YStr csa) scope), fs2)
        end
    end.
Proof.
  intros HG HQ HY HR VD VS csa Y' Q' fs1 fs2.
  assert (component (csa ++ py ".sql")) as Cs
      by (apply csa_suffixed_component; (assumption || discriminate
                                         || reflexivity)).
  assert (component (csa ++ py ".yml")) as Cy
      by (apply csa_suffixed_component; (assumption || discriminate
                                         || reflexivity)).
  pose proof queries_component as Cq.
  unfold transform. fold csa.
  rewrite (joinpath_components gp [py "queries"; csa ++ py ".sql"])
    by components.
  rewrite (joinpath_components gp [csa ++ py ".yml"])
    by components.
  unfold bind at 1. unfold read_text. rewrite HR.
  unfold bind at 1. unfold lift, relative_to. rewrite strip_prefix_app.
  rewrite yml_file_data_descriptor.
  (* the descriptor *)
  unfold bind at 1. unfold write_text at 1.
  rewrite (run_update_below _ _ (locate cwd gp) [csa ++ py ".yml"] _ fs
             (locate_app cwd gp [csa ++ py ".yml"] ltac:(components))
             ltac:(discriminate) HG).
  destruct (refusal cwd (gp ++ [csa ++ py ".yml"]) fs) as [e|];
    [reflexivity|].
  rewrite update_leaf. cbn [assoc set_entry].
  rewrite (str_eqb_neq (py "queries") (csa ++ py ".yml"))
    by (intros E; now apply (yml_not_queries csa)).
  rewrite (all_files_write _ _ Y HY). fold Y'. fold fs1.
  (* the script *)
  assert (find (locate cwd gp) fs1
          = Some (Dir ((py "queries", Dir Q) :: Y'))) as HG1
      by (apply find_graft_same; congruence).
  unfold bind at 1. unfold write_text at 1.
  rewrite (run_update_below _ _ (locate cwd gp)
             [py "queries"; csa ++ py ".sql"] _ fs1
             (locate_app cwd gp [py "queries"; csa ++ py ".sql"]
                         ltac:(components))
             ltac:(discriminate) HG1).
  destruct (refusal cwd (gp ++ [py "queries"; csa ++ py ".sql"]) fs1)
    as [e|]; [reflexivity|].
  rewrite update_step by discriminate.
  cbn [assoc]. rewrite str_eqb_refl. rewrite update_leaf.
  rewrite (all_files_write _ _ Q HQ). cbn [set_entry].
  rewrite str_eqb_refl. fold Q'. fold fs2.
  unfold ret. f_equal. f_equal. f_equal. f_equal. unfold stem.
  rewrite name_app; [| discriminate | right; components].
  cbn [last]. apply (stem_of_suffixed csa "y" "m" "l");
    try discriminate. apply csa_file_name_not_nil.
Qed.

(** One turn of the loop that returns: the path was a text file; the
    descriptor and the script are in the domain directory, and nothing
    changed apart from it. *)
Lemma transform_post args gp dataset f scope fs Q Y scope' fs' :
  find (locate cwd gp) fs = Some (Dir ((py "queries", Dir Q) :: Y)) ->
  all_files Q -> all_files Y ->
  valid_name dataset = true -> valid_name (stem f) = true ->
  transform cwd safe_dump args gp dataset f scope fs = (inr scope', fs') ->
  exists data,
    find (locate cwd f) fs = Some (File data)
    /\ scope' = dict_append (py "etl_scope")
                            (YStr (csa_file_name dataset (stem f))) scope
    /\ find (locate cwd gp) fs'
       = Some (Dir ((py "queries",
                     Dir (set_entry
                            (csa_file_name dataset (stem f) ++ py ".sql")
                            (File (sql_file_data (source_dataset args)
                                                 (universal_newlines data)))
                            Q))
                      :: set_entry
                           (csa_file_name dataset (stem f) ++ py ".yml")
                           (File (safe_dump
                                    (descriptor
                                       (csa_file_name dataset (stem f)))))
                           Y))
    /\ (forall q, diverge (locate cwd gp) q = true -> find q fs' = find q fs).
Proof.
  intros HG HQ HY VD VS H.
  destruct (find (locate cwd f) fs) as [[data|es|]|] eqn:HR;
    try (exfalso; unfold transform in H; unfold bind at 1 in H;
         unfold read_text in H; rewrite HR in H; discriminate H).
  exists data. split; [reflexivity|].
  rewrite (transform_run args gp dataset f scope fs Q Y data
             HG HQ HY HR VD VS) in H.
  cbv zeta in H.
  destruct (refusal cwd _ fs); [discriminate|].
  destruct (refusal cwd _ _); [discriminate|].
  injection H as <- <-. split; [reflexivity|]. split.
  - apply find_graft_same. rewrite find_graft_same; congruence.
  - intros q D. now rewrite !find_graft_diverge.
Qed.

Lemma rglob_not_nil matches n rel : In rel (rglob matches n) -> rel <> [].
Proof.
  destruct n as [data|es|]; intros H; [destruct H| |destruct H].
  cbn [rglob] in H. apply in_app_or in H as [H|H].
  - apply in_map_iff in H as (e & <- & _). discriminate.
  - apply in_flat_map in H as (e & _ & H).
    apply in_map_iff in H as (x & <- & _). discriminate.
Qed.

Lemma listing_not_nil clone rel : In rel (listing clone) -> rel <> [].
Proof.
  unfold listing. destruct clone as [[data|es|]|]; try (intros []).
  intros H. apply nodup_In in H. now apply rglob_not_nil in H.
Qed.

Lemma find_in_app base rel fs :
  find (locate cwd base ++ rel) fs = find_in (find (locate cwd base) fs) rel.
Proof. rewrite find_app. reflexivity. Qed.

(** A loop that returns, seen from the domain directory: every path was a
    text file, and each added its descriptor and its script in turn. *)
Lemma loop_post args gp base clone :
  base <> [] ->
  diverge (locate cwd gp) (locate cwd base) = true ->
  forall rels names fs Q Y scope' fs',
    find (locate cwd gp) fs = Some (Dir ((py "queries", Dir Q) :: Y)) ->
    all_files Q -> all_files Y ->
    find (locate cwd base) fs = clone ->
    Forall (fun rel => rel <> [] /\ valid_name (last rel []) = true) rels ->
    for_each (map (fun rel => base ++ rel) rels)
             (transform cwd safe_dump args gp
                        (dataset_name (domain_name args)))
             (scope_with args names) fs
    = (inr scope', fs') ->
    scope' = scope_with args
               (names
                ++ map (derived args)
                       (map (fun rel => (stem_of (last rel []),
                                         body_of (find_in clone rel)))
                            rels))
    /\ find (locate cwd gp) fs'
       = Some (Dir ((py "queries",
                     Dir (fold_left (add_query args)
                            (map (fun rel => (stem_of (last rel []),
                                              body_of (find_in clone rel)))
                                 rels) Q))
                      :: fold_left (add_descriptor safe_dump args)
                           (map (fun rel => (stem_of (last rel []),
                                             body_of (find_in clone rel)))
                                rels) Y))
    /\ all_files (fold_left (add_descriptor safe_dump args)
                    (map (fun rel => (stem_of (last rel []),
                                      body_of (find_in clone rel)))
                         rels) Y)
    /\ (forall q, diverge (locate cwd gp) q = true ->
                  find q fs' = find q fs)
    /\ Forall (fun rel => is_file (find_in clone rel) = true) rels.
Proof.
  intros NE D. induction rels as [|rel rels IH];
    intros names fs Q Y scope' fs' HG HQ HY HC F H.
  - cbn [map for_each fold_left] in *. unfold ret in H.
    injection H as <- <-. rewrite app_nil_r.
    repeat split; try assumption. constructor.
  - inversion F as [|? ? (Hne & Hv) F']; subst.
    cbn [map for_each] in H. unfold bind at 1 in H.
    destruct (transform cwd safe_dump args gp
                (dataset_name (domain_name args)) (base ++ rel)
                (scope_with args names) fs) as [[e|scope1] fs1] eqn:Ht;
      [discriminate H|].
    assert (stem (base ++ rel) = stem_of (last rel [])) as Hs
        by (unfold stem; rewrite name_app; auto).
    apply (transform_post args gp _ _ _ fs Q Y) in Ht;
      [| assumption | assumption | assumption | apply valid_dataset_name
       | rewrite Hs; now apply valid_stem_of].
    destruct Ht as (data & HR & -> & HG1 & Hfr).
    rewrite Hs in HG1. rewrite Hs, dict_append_scope in H.
    rewrite locate_app_ne, find_in_app in HR by exact NE.
    destruct (IH (names ++ [csa_file_name (dataset_name (domain_name args))
                                         (stem_of (last rel []))])
                 fs1 _ _ scope' fs' HG1)
      as (Hsc & HG' & HY' & Hfr' & Fi); try assumption.
    + now apply all_files_set.
    + now apply all_files_set.
    + now apply Hfr.
    + cbn [map fold_left]. rewrite HR. cbn [body_of].
      unfold derived at 2. cbn [fst]. unfold add_query at 2.
      unfold add_descriptor at 2 4. unfold derived at 2 3 4 5. cbn [fst snd].
      rewrite <- app_assoc in Hsc. cbn [app] in Hsc.
      repeat split; try assumption.
      * intros q Dq. now rewrite Hfr', Hfr.
      * constructor; [now rewrite HR | exact Fi].
Qed.

(** No tree is removed at the empty location by [update]. *)
Lemma update_rmtree_root n : exists e, update rmtree_entry [] n = inl e.
Proof. destruct n as [data|es|]; cbn; eauto. Qed.

(** What a successful update of a path leaves. *)
Lemma run_update_success f p fs fs' :
  locate cwd p <> [] -> run_update cwd f p fs = (inr tt, fs') ->
  (exists r, f (find (locate cwd p) fs) = inr r
             /\ find (locate cwd p) fs' = r)
  /\ (forall q, diverge (locate cwd p) q = true -> find q fs' = find q fs).
Proof.
  intros NE H. apply run_update_returns in H as [_ U]. split.
  - eapply update_find_same; eassumption.
  - intros q D. eapply update_diverge; eassumption.
Qed.

Lemma rmtree_success p fs fs' :
  rmtree cwd p fs = (inr tt, fs') ->
  locate cwd p <> []
  /\ find (locate cwd p) fs' = None
  /\ (forall q, diverge (locate cwd p) q = true -> find q fs' = find q fs).
Proof.
  intros H.
  assert (run_update cwd rmtree_entry p fs = (inr tt, fs')) as U.
  { unfold rmtree in H.
    destruct (find (locate cwd p) fs) as [[data|es|]|]; try exact H.
    destruct p as [|a p]; [discriminate H|].
    destruct (locate cwd (a :: p)); [discriminate H | exact H]. }
  assert (locate cwd p <> []) as NE.
  { intros L. apply run_update_returns in U as [_ U]. rewrite L in U.
    destruct (update_rmtree_root fs) as [e E]. congruence. }
  split; [exact NE|].
  destruct (run_update_success _ _ _ _ NE U) as ((r & Hr & Hf) & Hd).
  split; [|exact Hd]. rewrite Hf.
  destruct (find (locate cwd p) fs) as [[| |]|]; simpl in Hr;
    congruence.
Qed.

Lemma mkdir_success p fs fs' :
  find (locate cwd p) fs = None -> mkdir cwd p fs = (inr tt, fs') ->
  find (locate cwd p) fs' = Some (Dir [])
  /\ (forall q, diverge (locate cwd p) q = true -> find q fs' = find q fs).
Proof.
  intros HN H. assert (locate cwd p <> []) as NE.
  { intros L. rewrite L in HN. discriminate HN. }
  destruct (run_update_success _ _ _ _ NE H) as ((r & Hr & Hf) & Hd).
  split; [|exact Hd]. rewrite HN in Hr. simpl in Hr. congruence.
Qed.

(** Lines 104-108, when they return: the domain directory holds an empty
    [queries] directory and nothing else; the rest of the file system is as
    before. *)
Lemma reset_domain_post gp fs fs' :
  reset_domain cwd gp fs = (inr tt, fs') ->
  find (locate cwd gp) fs' = Some (Dir [(py "queries", Dir [])])
  /\ (forall q, diverge (locate cwd gp) q = true -> find q fs' = find q fs).
Proof.
  unfold reset_domain. unfold bind at 1.
  assert (forall fs1,
             find (locate cwd gp) fs1 = None ->
             (mkdir cwd gp;; mkdir cwd (joinpath gp [py "queries"])) fs1
             = (inr tt, fs') ->
             find (locate cwd gp) fs' = Some (Dir [(py "queries", Dir [])])
             /\ (forall q, diverge (locate cwd gp) q = true ->
                           find q fs' = find q fs1)) as K.
  { intros fs1 HN H. unfold bind in H.
    destruct (mkdir cwd gp fs1) as [[e|[]] fs2] eqn:M1; [discriminate|].
    destruct (mkdir_success _ _ _ HN M1) as (H2 & D2).
    pose proof queries_component as Cq.
    rewrite joinpath_components in H by components.
    apply run_update_returns in H as [_ H].
    rewrite (locate_app cwd gp [py "queries"] ltac:(components)) in H.
    rewrite (update_app mkdir_entry (locate cwd gp) [py "queries"] fs2 _ H2
               ltac:(discriminate)) in H.
    rewrite update_leaf in H. simpl in H. injection H as <-. split.
    - apply find_graft_same. congruence.
    - intros q D. now rewrite find_graft_diverge, D2. }
  unfold exists_.
  destruct (refusal cwd gp fs) as [e|] eqn:R.
  - apply refusal_missing in R.
    destruct e; try discriminate;
      unfold bind at 1; unfold ret; intros H; now apply K.
  - destruct (find (locate cwd gp) fs) eqn:E.
    + unfold bind at 1.
      destruct (rmtree cwd gp fs) as [[e|[]] fs1] eqn:Rm; [discriminate|].
      destruct (rmtree_success _ _ _ Rm) as (_ & HN & D1).
      intros H. destruct (K fs1 HN H) as (HG & D2).
      split; [exact HG|]. intros q D. now rewrite D2, D1.
    + unfold bind at 1. unfold ret. intros H. now apply K.
Qed.




Lemma descriptor_entries_scope args ss Y :
  assoc (py "SCOPE.yml") (fold_left (add_descriptor safe_dump args) ss Y)
  = assoc (py "SCOPE.yml") Y.
Proof.
  revert Y. induction ss as [|s ss IH]; intros Y; [reflexivity|].
  cbn [fold_left]. rewrite IH. unfold add_descriptor.
  apply assoc_set_other. apply scope_not_descriptor.
Qed.

Lemma sql_dir_of_app T :
  sql_dir_of T = T ++ [py "backends"; py "bigquery"; py "sql"].
Proof.
  unfold sql_dir_of. apply joinpath_components.
  repeat (apply Forall_cons; [repeat split; discriminate|]).
  apply Forall_nil.
Qed.

Lemma apart_spec T args fs :
  apart cwd T args fs = true ->
  diverge (locate cwd (grizzly_path_of args)) (locate cwd (sql_dir_of T))
  = true
  /\ Forall (fun rel => rel <> [] /\ valid_name (last rel []) = true)
            (listing (find (locate cwd (sql_dir_of T)) fs)).
Proof.
  unfold apart. intros H. apply andb_prop in H as [H _].
  apply andb_prop in H as [H F]. apply andb_prop in H as [_ D].
  split; [exact D|].
  rewrite forallb_forall in F. apply Forall_forall. intros rel I.
  split; [eapply listing_not_nil; exact I | now apply F].
Qed.

(** [main] is the clone command, the reset of the domain directory and the
    copy of the scripts, in this order. *)
Lemma main_steps T args fs :
  main cwd subprocess_run safe_dump T args fs
  = (run_command subprocess_run (clone_command T);;
     reset_domain cwd (grizzly_path_of args);;
     copy_scripts cwd safe_dump T args) fs.
Proof. reflexivity. Qed.

(** The copy of the scripts into a freshly reset domain directory, when it
    returns: the domain directory holds exactly [domain_of] the clone's
    scripts, every listed path was a text file, and nothing changed apart
    from the domain directory. *)
Lemma copy_scripts_post T args fs2 fs' :
  diverge (locate cwd (grizzly_path_of args)) (locate cwd (sql_dir_of T))
  = true ->
  Forall (fun rel => rel <> [] /\ valid_name (last rel []) = true)
         (listing (find (locate cwd (sql_dir_of T)) fs2)) ->
  find (locate cwd (grizzly_path_of args)) fs2
  = Some (Dir [(py "queries", Dir [])]) ->
  copy_scripts cwd safe_dump T args fs2 = (inr tt, fs') ->
  find (locate cwd (grizzly_path_of args)) fs'
  = Some (domain_of safe_dump args
            (scripts (find (locate cwd (sql_dir_of T)) fs2)))
  /\ (forall q,
         diverge (locate cwd (grizzly_path_of args)) q = true ->
         find q fs' = find q fs2)
  /\ Forall (fun rel =>
               is_file (find_in (find (locate cwd (sql_dir_of T)) fs2) rel)
               = true)
            (listing (find (locate cwd (sql_dir_of T)) fs2)).
Proof.
  intros D F HG2 H.
  assert (sql_dir_of T <> []) as NE
      by (rewrite sql_dir_of_app; now destruct T).
  unfold copy_scripts in H.
  change (Path [grizzly_repo_path args; domain_name args])
    with (grizzly_path_of args) in H.
  change (joinpath T [py "backends"; py "bigquery"; py "sql"])
    with (sql_dir_of T) in H.
  unfold bind at 1 in H. unfold glob_sql in H.
  set (clone := find (locate cwd (sql_dir_of T)) fs2) in *.
  assert ((let (r, fs0) :=
             for_each (map (fun rel => sql_dir_of T ++ rel) (listing clone))
               (transform cwd safe_dump args (grizzly_path_of args)
                          (dataset_name (domain_name args)))
               (scope_with args []) fs2 in
           match r with
           | inr scope =>
               write_text cwd
                 (joinpath (grizzly_path_of args) [py "SCOPE.yml"])
                 (safe_dump scope) fs0
           | inl e => (inl e, fs0)
           end) = (inr tt, fs')) as H'.
  { destruct (refusal cwd (sql_dir_of T) fs2) as [[| | |e]|];
      try discriminate H; exact H. }
  clear H.
  destruct (for_each (map (fun rel => sql_dir_of T ++ rel) (listing clone))
              (transform cwd safe_dump args (grizzly_path_of args)
                         (dataset_name (domain_name args)))
              (scope_with args []) fs2) as [[e|scope] fs3] eqn:HL;
    [discriminate H'|].
  destruct (loop_post args (grizzly_path_of args) (sql_dir_of T) clone NE D
              (listing clone) [] fs2 [] [] scope fs3 HG2)
    as (-> & HG3 & HY3 & D3 & Fi); try (now constructor); try assumption.
  pose proof scope_component as Cs.
  rewrite joinpath_components in H' by components.
  apply run_update_returns in H' as [_ U].
  rewrite (locate_app cwd _ [py "SCOPE.yml"] ltac:(components)) in U.
  rewrite (update_app _ (locate cwd (grizzly_path_of args)) [py "SCOPE.yml"]
             fs3 _ HG3 ltac:(discriminate)) in U.
  rewrite update_leaf in U. cbn [assoc] in U.
  rewrite (str_eqb_neq (py "queries") (py "SCOPE.yml")) in U
    by discriminate.
  rewrite (all_files_write _ _ _ HY3) in U.
  apply (f_equal (fun r => match r with inr n => n | inl _ => fs3 end)) in U.
  cbv beta iota in U. subst fs'.
  split; [|split; [|exact Fi]].
  - rewrite find_graft_same by congruence. unfold domain_of. f_equal.
    cbn [set_entry].
    rewrite (str_eqb_neq (py "queries") (py "SCOPE.yml")) by discriminate.
    rewrite set_entry_fresh by (now rewrite descriptor_entries_scope).
    reflexivity.
  - intros q Dq. now rewrite find_graft_diverge, D3.
Qed.

(** A run that returns, from paths that are plain and apart: the domain
    directory was reset, then the scripts were copied; the domain directory
    holds exactly [domain_of] the clone's scripts, every listed path was a
    text file, and nothing apart from the domain directory changed after
    the clone command. *)
Theorem main_post T args fs out fs1 fs' :
  run_command subprocess_run (clone_command T) fs = (inr out, fs1) ->
  apart cwd T args fs1 = true ->
  main cwd subprocess_run safe_dump T args fs = (inr tt, fs') ->
  exists fs2,
    reset_domain cwd (grizzly_path_of args) fs1 = (inr tt, fs2)
    /\ find (locate cwd (grizzly_path_of args)) fs2
       = Some (Dir [(py "queries", Dir [])])
    /\ (forall q,
           diverge (locate cwd (grizzly_path_of args)) q = true ->
           find q fs2 = find q fs1)
    /\ copy_scripts cwd safe_dump T args fs2 = (inr tt, fs')
    /\ find (locate cwd (grizzly_path_of args)) fs'
       = Some (domain_of safe_dump args
                 (scripts (find (locate cwd (sql_dir_of T)) fs1)))
    /\ (forall q,
           diverge (locate cwd (grizzly_path_of args)) q = true ->
           find q fs' = find q fs1)
    /\ Forall (fun rel =>
                 is_file (find_in (find (locate cwd (sql_dir_of T)) fs1) rel)
                 = true)
              (listing (find (locate cwd (sql_dir_of T)) fs1)).
Proof.
  intros HR A H. destruct (apart_spec _ _ _ A) as (D & F).
  rewrite main_steps in H. unfold bind at 1 in H. rewrite HR in H.
  unfold bind at 1 in H.
  destruct (reset_domain cwd (grizzly_path_of args) fs1)
    as [[e|[]] fs2] eqn:HS; [discriminate H|].
  destruct (reset_domain_post _ _ _ HS) as (HG2 & D2).
  rewrite <- (D2 _ D) in F.
  destruct (copy_scripts_post T args fs2 fs' D F HG2 H) as (HD & D3 & Fi).
  rewrite (D2 _ D) in HD, Fi.
  exists fs2. repeat split; try assumption.
  intros q Dq. now rewrite D3, D2.
Qed.


(** C10: the clone command runs and its exit code is checked before
    anything else: when it exits non-zero the run raises, and the file
    system is the one the clone command left, the domain directory
    included. *)
Theorem C10_clone_failure_leaves_domain (T : path) (args : Namespace)
        (fs fs1 : node) (cp : CompletedProcess) :
  subprocess_run (clone_command T) fs = (inr cp, fs1) ->
  returncode cp <> 0%Z ->
  raises (main cwd subprocess_run safe_dump T args fs)
  /\ snd (main cwd subprocess_run safe_dump T args fs) = fs1
  /\ find (locate cwd (grizzly_path_of args))
          (snd (main cwd subprocess_run safe_dump T args fs))
     = find (locate cwd (grizzly_path_of args)) fs1.
Proof.
  intros H N.
  assert (exists e, main cwd subprocess_run safe_dump T args fs
                    = (inl e, fs1)) as [e E].
  { unfold main. fold (clone_command T).
    unfold bind at 1. unfold run_command. unfold bind at 1. rewrite H.
    apply Z.eqb_neq in N. rewrite N. cbn [negb].
    unfold bind, lift, raise.
    destruct (decode (stderr cp)); eauto. }
  rewrite E. unfold raises. cbn [fst snd]. auto.
Qed.

End Run.

(** ** [run_command] *)

(** C7, as amended: [run_command] on a process that ran raises exactly when
    the exit code is not zero or the captured output does not decode; after
    a non-zero exit with a decodable standard error the exception carries
    that text between the colour codes; after a zero exit with a decodable
    standard output it returns that text. *)
Theorem C7_run_command_outcome
        (subprocess_run : list str -> M CompletedProcess)
        (arguments : list str) (fs fs1 : node) (cp : CompletedProcess) :
  subprocess_run arguments fs = (inr cp, fs1) ->
  (raises (run_command subprocess_run arguments fs)
   <-> returncode cp <> 0%Z \/ decode_utf8 (stdout cp) = None)
  /\ (returncode cp <> 0%Z ->
      forall t, decode_utf8 (stderr cp) = Some t ->
                run_command subprocess_run arguments fs
                = (inl (Exception (ForeColor.RED ++ t ++ ForeColor.RESET)),
                   fs1))
  /\ (returncode cp = 0%Z ->
      forall t, decode_utf8 (stdout cp) = Some t ->
                run_command subprocess_run arguments fs = (inr t, fs1)).
Proof.
  intros H. unfold run_command. unfold bind at 1 3 5. rewrite H.
  destruct (Z.eqb_spec (returncode cp) 0) as [E|N]; cbn [negb].
  - unfold lift, decode, raises. repeat split.
    + destruct (decode_utf8 (stdout cp)); cbn [fst]; [intros []|now right].
    + intros [F|F]; [contradiction|]. now rewrite F.
    + contradiction.
    + intros _ t ->. reflexivity.
  - unfold bind, lift, decode, raise, raises. repeat split.
    + now left.
    + intros _. now destruct (decode_utf8 (stderr cp)).
    + intros _ t ->. reflexivity.
    + contradiction.
Qed.

(** C7, as stated, fails: a process that exits with 0 after printing a byte
    that is no UTF-8 makes [run_command] raise, and return nothing. *)
Lemma C7_counterexample :
  ~ (forall (subprocess_run : list str -> M CompletedProcess)
            (arguments : list str) (fs fs1 : node) (cp : CompletedProcess),
        subprocess_run arguments fs = (inr cp, fs1) ->
        (raises (run_command subprocess_run arguments fs)
         <-> returncode cp <> 0%Z)).
Proof.
  intros H.
  destruct (H Scenario.prints_latin1 [py "cat"; py "latin1.txt"] (Dir [])
              _ _ eq_refl) as [R _].
  apply R; [exact I | reflexivity].
Qed.

Lemma C7_run_command_outcome_witness :
  run_command Scenario.gh_fails [py "gh"; py "repo"; py "clone"] (Dir [])
  = (inl (Exception (ForeColor.RED
                       ++ code_points (py "fatal: not logged in")
                       ++ ForeColor.RESET)),
     Dir []).
Proof.
  apply (proj1 (proj2 (C7_run_command_outcome Scenario.gh_fails
                         [py "gh"; py "repo"; py "clone"] (Dir []) (Dir [])
                         _ eq_refl))).
  - discriminate.
  - reflexivity.
Defined.

(** ** What a run leaves in the domain directory *)

Lemma assoc_app c a b :
  assoc c (a ++ b)
  = match assoc c a with Some n => Some n | None => assoc c b end.
Proof.
  induction a as [|[k m] a IH]; [reflexivity|].
  simpl. now destruct (str_eqb k c).
Qed.

Section Written.

Variable safe_dump : yaml -> str.
Variable args : Namespace.

Lemma descriptor_kept s ss Y :
  assoc (derived args s ++ py ".yml") Y
  = Some (File (safe_dump (descriptor (derived args s)))) ->
  assoc (derived args s ++ py ".yml")
        (fold_left (add_descriptor safe_dump args) ss Y)
  = Some (File (safe_dump (descriptor (derived args s)))).
Proof.
  revert Y. induction ss as [|t ss IH]; intros Y H; [exact H|].
  cbn [fold_left]. apply IH. unfold add_descriptor.
  destruct (list_eq_dec ascii_dec (derived args t) (derived args s))
    as [E|N].
  - rewrite E. apply assoc_set_same.
  - rewrite assoc_set_other; [exact H|].
    intros F. apply N. now apply app_inv_tail in F.
Qed.

(** Every script has its descriptor, whatever was copied after it. *)
Lemma descriptor_written s ss Y :
  In s ss ->
  assoc (derived args s ++ py ".yml")
        (fold_left (add_descriptor safe_dump args) ss Y)
  = Some (File (safe_dump (descriptor (derived args s)))).
Proof.
  intros I. apply in_split in I as (pre & post & ->).
  rewrite fold_left_app. cbn [fold_left]. apply descriptor_kept.
  unfold add_descriptor at 1. apply assoc_set_same.
Qed.

Lemma query_kept s post Q v :
  (forall t, In t post -> derived args t <> derived args s) ->
  assoc (derived args s ++ py ".sql") Q = Some v ->
  assoc (derived args s ++ py ".sql") (fold_left (add_query args) post Q)
  = Some v.
Proof.
  revert Q. induction post as [|t post IH]; intros Q N H; [exact H|].
  cbn [fold_left]. apply IH.
  - intros u I. apply N. now right.
  - unfold add_query. rewrite assoc_set_other; [exact H|].
    intros F. apply (N t); [now left|]. now apply app_inv_tail in F.
Qed.

(** A script's text is in [queries] under its derived name unless a later
    script has the same derived name. *)
Lemma query_written pre s post Q :
  (forall t, In t post -> derived args t <> derived args s) ->
  assoc (derived args s ++ py ".sql")
        (fold_left (add_query args) (pre ++ s :: post) Q)
  = Some (File (sql_file_data (source_dataset args) (snd s))).
Proof.
  intros N. rewrite fold_left_app. cbn [fold_left].
  apply query_kept; [exact N|]. unfold add_query at 1.
  apply assoc_set_same.
Qed.

Lemma domain_scope ss :
  find [py "SCOPE.yml"] (domain_of safe_dump args ss)
  = Some (File (safe_dump (scope_with args (map (derived args) ss)))).
Proof.
  unfold domain_of. cbn [find assoc].
  rewrite (str_eqb_neq (py "queries") (py "SCOPE.yml")) by discriminate.
  rewrite assoc_app. unfold descriptor_entries.
  rewrite descriptor_entries_scope. cbn [assoc].
  now rewrite str_eqb_refl.
Qed.

Lemma domain_descriptor ss s :
  In s ss ->
  find [derived args s ++ py ".yml"] (domain_of safe_dump args ss)
  = Some (File (safe_dump (descriptor (derived args s)))).
Proof.
  intros I. unfold domain_of. cbn [find assoc].
  rewrite (str_eqb_neq (py "queries") (derived args s ++ py ".yml"))
    by (intros E; now apply (yml_not_queries (derived args s))).
  rewrite assoc_app. unfold descriptor_entries.
  now rewrite descriptor_written.
Qed.

Lemma domain_query pre s post :
  (forall t, In t post -> derived args t <> derived args s) ->
  find [py "queries"; derived args s ++ py ".sql"]
       (domain_of safe_dump args (pre ++ s :: post))
  = Some (File (sql_file_data (source_dataset args) (snd s))).
Proof.
  intros N. unfold domain_of. cbn [find assoc].
  rewrite str_eqb_refl. unfold queries_entries.
  now rewrite query_written.
Qed.

End Written.

(** ** The listing of the clone *)

(** Induction on a tree, with the statement at hand for every entry of a
    directory. *)
Lemma node_induction (P : node -> Prop) :
  (forall data, P (File data)) ->
  (forall es, Forall (fun e => P (snd e)) es -> P (Dir es)) ->
  P Binary ->
  forall n, P n.
Proof.
  intros HF HD HB.
  refine (fix go (n : node) : P n :=
            match n with
            | File data => HF data
            | Dir es =>
                HD es ((fix all (l : entries_t)
                         : Forall (fun e => P (snd e)) l :=
                          match l with
                          | [] => Forall_nil _
                          | e :: l' => Forall_cons e (go (snd e)) (all l')
                          end) es)
            | Binary => HB
            end).
Qed.

Lemma assoc_in c es n : assoc c es = Some n -> In (c, n) es.
Proof.
  induction es as [|[k m] es IH]; simpl; [discriminate|].
  destruct (str_eqb k c) eqn:E.
  - apply str_eqb_eq in E. subst k. intros H. injection H as ->. now left.
  - intros H. right. now apply IH.
Qed.

(** Every listed path has a matching name. *)
Lemma rglob_sound matches n :
  forall rel, In rel (rglob matches n) -> matches (last rel []) = true.
Proof.
  induction n as [data|es IH|] using node_induction; intros rel H;
    [destruct H| |destruct H].
  cbn [rglob] in H. apply in_app_or in H as [H|H].
  - apply in_map_iff in H as (e & <- & H).
    apply filter_In in H as [_ H]. exact H.
  - apply in_flat_map in H as (e & I & H).
    apply in_map_iff in H as (x & <- & H).
    rewrite Forall_forall in IH. specialize (IH e I x H).
    pose proof (rglob_not_nil _ _ _ H) as NE.
    destruct x as [|y x]; [contradiction | exact IH].
Qed.

(** Every path that leads from the directory to a node with a matching
    name is listed. *)
Lemma rglob_complete matches :
  forall rel n x,
    rel <> [] -> find rel n = Some x -> matches (last rel []) = true ->
    In rel (rglob matches n).
Proof.
  induction rel as [|c rest IH]; intros n x NE H M; [contradiction|].
  cbn [find] in H. destruct n as [data|es|]; [discriminate| |discriminate].
  destruct (assoc c es) as [n1|] eqn:A; [|discriminate].
  apply assoc_in in A. cbn [rglob]. apply in_or_app.
  destruct rest as [|c' r].
  - left. apply in_map_iff. exists (c, n1). split; [reflexivity|].
    apply filter_In. split; [exact A | exact M].
  - right. apply in_flat_map. exists (c, n1). split; [exact A|].
    apply in_map. apply (IH n1 x); [discriminate | exact H | exact M].
Qed.

(** The listing holds every path below the directory whose name ends in
    [.sql], once each, and only paths with such a name. *)
Lemma listing_spec clone :
  NoDup (listing clone)
  /\ (forall rel, In rel (listing clone) ->
                  endswith (py ".sql") (last rel []) = true)
  /\ (forall rel x,
         rel <> [] -> find_in clone rel = Some x ->
         endswith (py ".sql") (last rel []) = true ->
         In rel (listing clone)).
Proof.
  unfold listing. destruct clone as [[data|es|]|].
  - repeat split; [constructor | intros ? [] |].
    intros [|c r] x NE H _; [contradiction | discriminate H].
  - repeat split.
    + apply NoDup_nodup.
    + intros rel I. apply nodup_In in I. now apply rglob_sound in I.
    + intros rel x NE H M. apply nodup_In. eapply rglob_complete; eassumption.
  - repeat split; [constructor | intros ? [] |].
    intros [|c r] x NE H _; [contradiction | discriminate H].
  - repeat split; [constructor | intros ? [] |]. intros ? ? _ H. discriminate H.
Qed.

(** ** Whole runs *)

Section WholeRuns.

Variable cwd : location.
Variable subprocess_run : list str -> M CompletedProcess.
Variable safe_dump : yaml -> str.

(** C4: when a run from paths that are plain and apart returns, the
    [etl_scope] of the manifest it wrote lists the derived base name of
    every path the listing of the clone's script directory yields, one
    entry per path, in listing order, equal names kept; the text in
    [queries] under a derived name is the transformed text of the last
    listed script with that name, as [read_text] returns it.  The listing
    holds each path below the script directory whose name ends in [.sql]
    once, and no other path; in a run that returns these are regular files
    that hold text. *)
Theorem C4_etl_scope (T : path) (args : Namespace) (fs fs1 fs' : node)
        (out : text) :
  run_command subprocess_run (clone_command T) fs = (inr out, fs1) ->
  apart cwd T args fs1 = true ->
  main cwd subprocess_run safe_dump T args fs = (inr tt, fs') ->
  let clone := find (locate cwd (sql_dir_of T)) fs1 in
  let name_of := fun rel =>
    csa_file_name (dataset_name (domain_name args)) (stem_of (last rel [])) in
  find (locate cwd (grizzly_path_of args) ++ [py "SCOPE.yml"]) fs'
  = Some (File (safe_dump
                  (YMap
                     [ (py "schedule_interval",
                        YStr (schedule_interval args));
                       (py "execution_timeout_per_table", YInt 1200);
                       (py "etl_scope",
                        YSeq (map (fun rel => YStr (name_of rel))
                                  (listing clone))) ])))
  /\ (forall pre rel post,
         listing clone = pre ++ rel :: post ->
         (forall r, In r post -> name_of r <> name_of rel) ->
         exists data,
           find_in clone rel = Some (File data)
           /\ find (locate cwd (grizzly_path_of args)
                      ++ [py "queries"; name_of rel ++ py ".sql"]) fs'
              = Some (File (sql_file_data (source_dataset args)
                                          (universal_newlines data))))
  /\ NoDup (listing clone)
  /\ (forall rel,
         In rel (listing clone) ->
         endswith (py ".sql") (last rel []) = true
         /\ exists data, find_in clone rel = Some (File data))
  /\ (forall rel x,
         rel <> [] -> find_in clone rel = Some x ->
         endswith (py ".sql") (last rel []) = true ->
         In rel (listing clone)).
Proof.
  intros HR A HM clone name_of.
  destruct (main_post cwd subprocess_run safe_dump T args fs out fs1 fs'
              HR A HM)
    as (_ & _ & _ & _ & _ & HD & _ & Fi).
  fold clone in HD, Fi. rewrite Forall_forall in Fi.
  assert (forall rel, In rel (listing clone) ->
                      exists data, find_in clone rel = Some (File data))
    as Files.
  { intros rel I. specialize (Fi rel I).
    destruct (find_in clone rel) as [[data| |]|]; try discriminate Fi.
    now exists data. }
  destruct (listing_spec clone) as (ND & LS & LC).
  split; [|split; [|split; [exact ND|split; [|exact LC]]]].
  - rewrite find_app, HD, domain_scope. unfold scope_with, scripts.
    now rewrite !map_map.
  - intros pre rel post HL N.
    destruct (Files rel) as (data & Hd);
      [rewrite HL; apply in_or_app; right; now left|].
    exists data. split; [exact Hd|].
    rewrite find_app, HD.
    unfold scripts. rewrite HL, map_app. cbn [map].
    replace (universal_newlines data) with (body_of (find_in clone rel))
      by (now rewrite Hd).
    apply (domain_query safe_dump args
             (map (fun r => (stem_of (last r []), body_of (find_in clone r)))
                  pre)
             (stem_of (last rel []), body_of (find_in clone rel))).
    intros t I. apply in_map_iff in I as (r & <- & I).
    unfold derived. cbn [fst]. now apply N.
  - intros rel I. split; [now apply LS | now apply Files].
Qed.

(** C5: when a run from paths that are plain and apart returns, the
    descriptor of every listed script is the dump of a mapping with exactly
    three fields: [target_table_name], the derived base name;
    [job_write_mode], the string [WRITE_TRUNCATE]; and
    [stage_loading_query], the path of the script in [queries] relative to
    the domain root. *)
Theorem C5_descriptor_fields (T : path) (args : Namespace)
        (fs fs1 fs' : node) (out : text) :
  run_command subprocess_run (clone_command T) fs = (inr out, fs1) ->
  apart cwd T args fs1 = true ->
  main cwd subprocess_run safe_dump T args fs = (inr tt, fs') ->
  let clone := find (locate cwd (sql_dir_of T)) fs1 in
  let name_of := fun rel =>
    csa_file_name (dataset_name (domain_name args)) (stem_of (last rel [])) in
  forall rel,
    In rel (listing clone) ->
    find (locate cwd (grizzly_path_of args) ++ [name_of rel ++ py ".yml"])
         fs'
    = Some (File (safe_dump
                    (YMap
                       [ (py "target_table_name", YStr (name_of rel));
                         (py "job_write_mode",
                          YStr (py "WRITE_TRUNCATE"));
                         (py "stage_loading_query",
                          YStr (py "queries/" ++ name_of rel
                                   ++ py ".sql")) ])))
    /\ path_str [py "queries"; name_of rel ++ py ".sql"]
       = py "queries/" ++ name_of rel ++ py ".sql".
Proof.
  intros HR A HM clone name_of rel I.
  destruct (main_post cwd subprocess_run safe_dump T args fs out fs1 fs'
              HR A HM)
    as (_ & _ & _ & _ & _ & HD & _).
  split; [|reflexivity].
  rewrite find_app, HD.
  apply (domain_descriptor safe_dump args (scripts clone)
           (stem_of (last rel []), body_of (find_in clone rel))).
  unfold scripts. apply in_map_iff. now exists rel.
Qed.


End WholeRuns.

(** ** The scenario of the specification *)

(** C2, as stated, fails: the derived base name of [csa_failed_logins.sql]
    is not [bas_csa.failed_logins]. *)
Lemma C2_counterexample :
  csa_file_name (dataset_name (py "team/bas_csa"))
                (stem [py "csa_failed_logins.sql"])
  <> py "bas_csa.failed_logins".
Proof. vm_compute. discriminate. Qed.

(** C2, as amended: for [csa_failed_logins.sql] holding
    [SELECT * FROM [MY_PROJECT_ID].[MY_DATASET_ID].events], the domain
    [team/bas_csa] and the source dataset [proj.ds], the dataset name is
    [bas_csa], the derived base name is [bas_csa.logins], the text written
    is [SELECT * FROM proj.ds.events], and the run leaves the descriptor
    with [target_table_name] [bas_csa.logins], [job_write_mode]
    [WRITE_TRUNCATE] and [stage_loading_query]
    [queries/bas_csa.logins.sql]. *)
Theorem C2_scenario (cwd : location) (dump : yaml -> str) :
  dataset_name (domain_name Scenario.args) = py "bas_csa"
  /\ csa_file_name (dataset_name (domain_name Scenario.args))
                   (stem [py "csa_failed_logins.sql"])
     = py "bas_csa.logins"
  /\ sql_file_data (source_dataset Scenario.args) Scenario.script_text
     = py "SELECT * FROM proj.ds.events"
  /\ main cwd Scenario.gh_clone dump Scenario.TEMP_DIR Scenario.args
          Scenario.disk
     = (inr tt, Scenario.final dump)
  /\ find [py "repo"; py "team"; py "bas_csa"; py "bas_csa.logins.yml"]
          (Scenario.final dump)
     = Some (File (dump
                     (YMap
                        [ (py "target_table_name", YStr (py "bas_csa.logins"));
                          (py "job_write_mode", YStr (py "WRITE_TRUNCATE"));
                          (py "stage_loading_query",
                           YStr (py "queries/bas_csa.logins.sql")) ])))
  /\ find [py "repo"; py "team"; py "bas_csa"; py "queries";
           py "bas_csa.logins.sql"] (Scenario.final dump)
     = Some (File (py "SELECT * FROM proj.ds.events")).
Proof. repeat split; vm_compute; reflexivity. Qed.

(** ** Instances *)

(** A script with the line ends of another system is copied with line
    feeds. *)
Lemma C4_etl_scope_witness :
  find [py "repo"; py "team"; py "bas_csa"; py "SCOPE.yml"]
       (snd (main [] (Cases.gh_clone_of Cases.with_crlf) Scenario.toy_dump
                  Scenario.TEMP_DIR Scenario.args Scenario.disk))
  = Some (File (Scenario.toy_dump
                  (scope_with Scenario.args [py "bas_csa.logins"])))
  /\ exists data,
      data = py "SELECT 1" ++ ["013"; "010"]%char ++ py "FROM t" ++ ["013"%char]
      /\ find [py "repo"; py "team"; py "bas_csa"; py "queries";
               py "bas_csa.logins.sql"]
              (snd (main [] (Cases.gh_clone_of Cases.with_crlf)
                         Scenario.toy_dump Scenario.TEMP_DIR Scenario.args
                         Scenario.disk))
         = Some (File (py "SELECT 1" ++ ["010"%char] ++ py "FROM t"
                          ++ ["010"%char])).
Proof.
  destruct (C4_etl_scope [] (Cases.gh_clone_of Cases.with_crlf)
              Scenario.toy_dump Scenario.TEMP_DIR Scenario.args Scenario.disk
              (snd (Cases.gh_clone_of Cases.with_crlf
                      (clone_command Scenario.TEMP_DIR) Scenario.disk))
              (snd (main [] (Cases.gh_clone_of Cases.with_crlf)
                         Scenario.toy_dump Scenario.TEMP_DIR Scenario.args
                         Scenario.disk))
              [] eq_refl eq_refl eq_refl)
    as (HS & HQ & _).
  split; [exact HS|].
  destruct (HQ [] [py "1_01_logins.sql"] [] eq_refl
               (fun r (I : In r []) => match I with end))
    as (data & Hd & Hq).
  assert (data = py "SELECT 1" ++ ["013"; "010"]%char ++ py "FROM t"
                    ++ ["013"%char]) as E
      by (vm_compute in Hd; injection Hd as <-; reflexivity).
  exists data. split; [exact E|]. rewrite E in Hq. exact Hq.
Defined.

Lemma C5_descriptor_fields_witness :
  find [py "repo"; py "team"; py "bas_csa"; py "bas_csa.logins.yml"]
       (snd (main [] Scenario.gh_clone Scenario.toy_dump Scenario.TEMP_DIR
                  Scenario.args Scenario.disk))
  = Some (File (Scenario.toy_dump (descriptor (py "bas_csa.logins")))).
Proof.
  exact (proj1 (C5_descriptor_fields [] Scenario.gh_clone Scenario.toy_dump
                  Scenario.TEMP_DIR Scenario.args Scenario.disk
                  (snd (Scenario.gh_clone (clone_command Scenario.TEMP_DIR)
                                          Scenario.disk))
                  (snd (main [] Scenario.gh_clone Scenario.toy_dump
                             Scenario.TEMP_DIR Scenario.args Scenario.disk))
                  [] eq_refl eq_refl eq_refl
                  [py "csa_failed_logins.sql"] (or_introl eq_refl))).
Defined.




Lemma C10_clone_failure_leaves_domain_witness :
  raises (main [] Scenario.gh_fails Scenario.toy_dump Scenario.TEMP_DIR
               Scenario.args Scenario.disk)
  /\ snd (main [] Scenario.gh_fails Scenario.toy_dump Scenario.TEMP_DIR
               Scenario.args Scenario.disk) = Scenario.disk.
Proof.
  destruct (C10_clone_failure_leaves_domain [] Scenario.gh_fails
              Scenario.toy_dump Scenario.TEMP_DIR Scenario.args
              Scenario.disk Scenario.disk
              {| returncode := 1; stdout := [];
                 stderr := String.list_byte_of_string "fatal: not logged in" |}
              eq_refl ltac:(discriminate))
    as (R & S & _).
  split; [exact R | exact S].
Defined.

(** A run whose domain directory is the working directory, here [/repo]:
    [rmtree] empties it, then fails to remove it. *)
Example run_in_place (dump : yaml -> str) :
  main [py "repo"] Scenario.gh_clone dump Scenario.TEMP_DIR Cases.args_here
       Scenario.disk
  = (inl (OSError EINVAL),
     Dir [ (py "tmp", Dir [ (py "csa.k3v9q2x1", Scenario.upstream) ]);
           (py "repo", Dir []) ]).
Proof. vm_compute. reflexivity. Qed.

(** A descriptor whose name would exceed [NAME_MAX] is refused; by then the
    domain directory is reset. *)
Example descriptor_name_too_long (cwd : location) (dump : yaml -> str) :
  exists fs',
    main cwd (Cases.gh_clone_of Cases.with_long_name) dump Scenario.TEMP_DIR
         Scenario.args Scenario.disk
    = (inl (OSError ENAMETOOLONG), fs')
    /\ find [py "repo"; py "team"; py "bas_csa"] fs'
       = Some (Dir [(py "queries", Dir [])]).
Proof. eexists. split; vm_compute; reflexivity. Qed.

(** A script whose bytes do not decode stops the run. *)
Example script_not_decodable (cwd : location) (dump : yaml -> str) :
  fst (main cwd (Cases.gh_clone_of Cases.with_binary) dump Scenario.TEMP_DIR
            Scenario.args Scenario.disk)
  = inl UnicodeDecodeError.
Proof. vm_compute. reflexivity. Qed.

(** Two scripts with one derived name: the name is listed twice, and the
    text kept is that of the script listed last. *)
Example twins_listed_twice (cwd : location) (dump : yaml -> str) :
  exists fs',
    main cwd Scenario.gh_clone_twins dump Scenario.TEMP_DIR Scenario.args
         Scenario.disk = (inr tt, fs')
    /\ find [py "repo"; py "team"; py "bas_csa"; py "SCOPE.yml"] fs'
       = Some (File (dump (scope_with Scenario.args
                             [py "bas_csa.logins"; py "bas_csa.logins"])))
    /\ find [py "repo"; py "team"; py "bas_csa"; py "queries"] fs'
       = Some (Dir [(py "bas_csa.logins.sql", File (py "SELECT 2"))]).
Proof. eexists. repeat split; vm_compute; reflexivity. Qed.

(** * Further properties of the code *)

(** ** Names *)

Lemma split_app_sep sep a b :
  split sep None (a ++ sep :: b) = split sep None a ++ split sep None b.
Proof.
  induction a as [|c a IH]; cbn [app split may_split after_split].
  - now rewrite Ascii.eqb_refl.
  - rewrite IH. destruct (Ascii.eqb c sep && true); [reflexivity|].
    destruct (split sep None a) as [|p r] eqn:E; [|reflexivity].
    now apply split_not_nil in E.
Qed.

Lemma lower_char_idem c : lower_char (lower_char c) = lower_char c.
Proof.
  destruct c as [[] [] [] [] [] [] [] []]; vm_compute; reflexivity.
Qed.

Lemma lower_idem s : lower (lower s) = lower s.
Proof.
  unfold lower. rewrite map_map. apply map_ext. apply lower_char_idem.
Qed.

Lemma lower_fixed s :
  (forall c, In c s -> lower_char c = c) -> lower s = s.
Proof.
  induction s as [|a s IH]; intros H; [reflexivity|].
  cbn [lower map]. rewrite H by now left.
  f_equal. apply IH. intros c I. apply H. now right.
Qed.

Lemma lowered_char_fixed s c : In c (lower s) -> lower_char c = c.
Proof.
  unfold lower. intros I. apply in_map_iff in I as (x & <- & _).
  apply lower_char_idem.
Qed.

(** X10, lines 92 and 111: only what follows the last slash of the domain name
    counts for the dataset name, which never holds a slash and is the
    lower-cased domain name when that has no slash; a domain name that ends
    in a slash gives the empty dataset name. *)
Theorem X_dataset_name_last_segment (a b : str) :
  dataset_name (a ++ py "/" ++ b) = dataset_name b
  /\ valid_name (dataset_name b) = true
  /\ (valid_name b = true -> dataset_name b = lower b)
  /\ dataset_name (a ++ py "/") = [].
Proof.
  assert (forall x y, dataset_name (x ++ py "/" ++ y) = dataset_name y) as K.
  { intros x y. unfold dataset_name. rewrite !lower_app.
    change (lower (py "/") ++ lower y) with ("/"%char :: lower y).
    rewrite split_app_sep. unfold last_item.
    apply last_app_ne, split_not_nil. }
  split; [apply K|]. split; [apply valid_dataset_name|]. split.
  - intros V. unfold dataset_name. apply valid_lower in V.
    now rewrite split_no_sep by now apply valid_name_spec.
  - rewrite <- (app_nil_r (py "/")). now rewrite K.
Qed.

Lemma X_dataset_name_last_segment_witness :
  dataset_name (py "Team/Security/BAS_csa") = py "bas_csa"
  /\ dataset_name (py "BAS_csa") = py "bas_csa".
Proof.
  split.
  - refine (eq_trans (proj1 (X_dataset_name_last_segment
                               (py "Team/Security") (py "BAS_csa"))) _).
    reflexivity.
  - apply (proj1 (proj2 (proj2 (X_dataset_name_last_segment [] (py "BAS_csa"))))).
    reflexivity.
Defined.

(** X9, line 111: the derived base name is in lower case, and it does not
    depend on the case of the stem or of the domain name, so two scripts
    whose stems differ in case only share one derived name. *)
Theorem X_derived_name_ignores_case (domain f_stem : str) :
  lower (csa_file_name (dataset_name domain) f_stem)
  = csa_file_name (dataset_name domain) f_stem
  /\ csa_file_name (dataset_name (lower domain)) (lower f_stem)
     = csa_file_name (dataset_name domain) f_stem.
Proof.
  split.
  - apply lower_fixed. unfold csa_file_name, dataset_name. intros c I.
    apply in_app_or in I as [I|I].
    + apply last_split_incl in I. now apply lowered_char_fixed in I.
    + apply in_app_or in I as [I|I].
      * destruct I as [<-|[]]. reflexivity.
      * apply last_split_incl in I. now apply lowered_char_fixed in I.
  - unfold csa_file_name, dataset_name. now rewrite !lower_idem.
Qed.

(** X8, lines 116-117 and 127: for a stem without a slash the descriptor file
    is called the derived name followed by [.yml], and its stem, the name
    appended to [etl_scope], is the derived name again, the string written
    as [target_table_name]; further dots in the derived name are kept. *)
Theorem X_descriptor_stem_round_trip (gp : path) (domain f_stem : str) :
  valid_name f_stem = true ->
  name (joinpath gp [csa_file_name (dataset_name domain) f_stem ++ py ".yml"])
  = csa_file_name (dataset_name domain) f_stem ++ py ".yml"
  /\ stem (joinpath gp
                    [csa_file_name (dataset_name domain) f_stem ++ py ".yml"])
     = csa_file_name (dataset_name domain) f_stem.
Proof.
  intros V.
  assert (component (csa_file_name (dataset_name domain) f_stem ++ py ".yml"))
    as Cy.
  { apply csa_suffixed_component;
      [apply valid_dataset_name | exact V | reflexivity | discriminate]. }
  assert (name (joinpath gp [csa_file_name (dataset_name domain) f_stem
                             ++ py ".yml"])
          = csa_file_name (dataset_name domain) f_stem ++ py ".yml") as N.
  { rewrite joinpath_components by components.
    rewrite name_app; [reflexivity | discriminate | right; components]. }
  split; [exact N|]. unfold stem. rewrite N.
  apply (stem_of_suffixed _ "y" "m" "l"); try discriminate.
  apply csa_file_name_not_nil.
Qed.

Lemma X_descriptor_stem_round_trip_witness :
  stem (joinpath [py "/"; py "repo"; py "bas_csa"]
                 [csa_file_name (dataset_name (py "bas_csa"))
                                (py "2_30_iam.keys_created")
                  ++ py ".yml"])
  = py "bas_csa.iam.keys_created".
Proof.
  rewrite (proj2 (X_descriptor_stem_round_trip
                    [py "/"; py "repo"; py "bas_csa"] (py "bas_csa")
                    (py "2_30_iam.keys_created") eq_refl)).
  reflexivity.
Defined.

Lemma joinpath_relative p segs :
  Forall (fun s => startswith (py "/") s = false) segs ->
  joinpath p segs = p ++ flat_map parse_segment segs.
Proof.
  unfold joinpath. revert p. induction segs as [|s segs IH]; intros p F.
  - cbn [fold_left flat_map]. now rewrite app_nil_r.
  - inversion F as [|? ? Hs F']; subst. cbn [fold_left flat_map].
    rewrite Hs, IH by exact F'. now rewrite <- app_assoc.
Qed.

Lemma csa_not_rooted dataset f_stem ext :
  valid_name dataset = true ->
  startswith (py "/") (csa_file_name dataset f_stem ++ ext) = false.
Proof.
  intros V. apply valid_name_spec in V. unfold csa_file_name.
  change (py "/") with ["/"%char]. destruct dataset as [|c ds].
  - reflexivity.
  - cbn [app startswith]. destruct (Ascii.eqb_spec "/" c) as [<-|N];
      [|reflexivity].
    exfalso. apply V. now left.
Qed.

(** X7, lines 113-123: the path of the script relative to the domain root is
    always found, [relative_to] never raises [ValueError], and it starts
    with [queries]; for a stem without a slash it is [queries] followed by
    the derived name with [.sql]. *)
Theorem X_stage_path_always_relative (gp : path) (domain f_stem : str) :
  relative_to
    (joinpath gp [py "queries";
                  csa_file_name (dataset_name domain) f_stem ++ py ".sql"])
    gp
  = inr (py "queries"
           :: parse_segment
                (csa_file_name (dataset_name domain) f_stem ++ py ".sql"))
  /\ (valid_name f_stem = true ->
      parse_segment (csa_file_name (dataset_name domain) f_stem ++ py ".sql")
      = [csa_file_name (dataset_name domain) f_stem ++ py ".sql"]).
Proof.
  split.
  - rewrite joinpath_relative.
    + cbn [flat_map].
      rewrite (parse_segment_component _ queries_component), app_nil_r.
      unfold relative_to. now rewrite strip_prefix_app.
    + repeat (apply Forall_cons || apply Forall_nil);
        [reflexivity | apply csa_not_rooted, valid_dataset_name].
  - intros V. apply parse_segment_component, csa_suffixed_component;
      [apply valid_dataset_name | exact V | reflexivity | discriminate].
Qed.

Lemma X_stage_path_always_relative_witness :
  relative_to
    (joinpath [py "/"; py "repo"; py "bas_csa"]
              [py "queries";
               csa_file_name (dataset_name (py "bas_csa"))
                             (py "1_01_logins") ++ py ".sql"])
    [py "/"; py "repo"; py "bas_csa"]
  = inr [py "queries"; py "bas_csa.logins.sql"].
Proof.
  refine (eq_trans (proj1 (X_stage_path_always_relative
                             [py "/"; py "repo"; py "bas_csa"]
                             (py "bas_csa") (py "1_01_logins"))) _).
  reflexivity.
Defined.

(** ** Substitution *)

Lemma join_app sep (l1 l2 : list str) :
  l1 <> [] -> l2 <> [] ->
  join sep (l1 ++ l2) = join sep l1 ++ sep ++ join sep l2.
Proof.
  intros N1 N2. induction l1 as [|p [|q l1] IH]; [contradiction| |].
  - destruct l2 as [|r l2]; [contradiction | reflexivity].
  - change ((p :: q :: l1) ++ l2) with (p :: q :: (l1 ++ l2)).
    rewrite !join_cons.
    change (q :: l1 ++ l2) with ((q :: l1) ++ l2).
    rewrite IH by discriminate. now rewrite <- !app_assoc.
Qed.

(** Splitting at the placeholder cuts at every placeholder written between
    two texts. *)
Lemma split_on_placeholder_app a b :
  split_on PLACEHOLDER (a ++ PLACEHOLDER ++ b)
  = split_on PLACEHOLDER a ++ split_on PLACEHOLDER b.
Proof.
  unfold split_on. rewrite placeholder_cons.
  set (c0 := "["%char). set (old' := py "MY_PROJECT_ID].[MY_DATASET_ID]").
  pose proof (join_split_on_from c0 old' 0 a) as Ja.
  pose proof (join_split_on_from c0 old' 0 b) as Jb.
  cbn [skipn] in Ja, Jb.
  rewrite <- Ja at 1. rewrite <- Jb at 1.
  rewrite <- join_app by apply split_on_from_not_nil.
  apply split_on_join.
  - apply placeholder_border_free.
  - intros E. apply app_eq_nil in E as [E _].
    now apply split_on_from_not_nil in E.
  - apply Forall_app. split; apply split_on_from_pieces.
Qed.

(** X12, lines 118-119: the substitution works through a text placeholder by
    placeholder: two texts joined by a placeholder are transformed each on
    its own and joined by the source dataset, whatever the texts hold. *)
Theorem X_substitution_composes (source a b : str) :
  sql_file_data source (a ++ PLACEHOLDER ++ b)
  = sql_file_data source a ++ source ++ sql_file_data source b.
Proof.
  rewrite !sql_file_data_join, split_on_placeholder_app.
  apply join_app; unfold split_on; rewrite placeholder_cons;
    apply split_on_from_not_nil.
Qed.

(** X13, lines 118-119: what is substituted is not scanned again: with the
    placeholder itself as source dataset every text is left as it is. *)
Theorem X_substitution_not_rescanned (body : str) :
  sql_file_data PLACEHOLDER body = body.
Proof.
  rewrite sql_file_data_join. unfold split_on.
  exact (join_split_on_from "[" (py "MY_PROJECT_ID].[MY_DATASET_ID]") 0 body).
Qed.

(** ** Listed scripts *)

Lemma endswith_spec p s : endswith p s = true -> exists x, s = x ++ p.
Proof.
  unfold endswith. intros H. apply andb_prop in H as [_ H].
  apply str_eqb_eq in H. exists (firstn (length s - length p) s).
  rewrite H at 2. symmetry. apply firstn_skipn.
Qed.

(** X11, lines 110-111: the name of every listed path is its stem followed by
    [.sql]; the one exception is a file called just [.sql], whose stem is
    its whole name. *)
Theorem X_listed_stem (clone : option node) (rel : location) :
  In rel (listing clone) ->
  last rel [] = stem_of (last rel []) ++ py ".sql"
  \/ (last rel [] = py ".sql" /\ stem_of (last rel []) = py ".sql").
Proof.
  intros I. destruct (listing_spec clone) as (_ & S & _).
  apply S, endswith_spec in I as [x E]. rewrite E.
  destruct x as [|c x].
  - right. split; reflexivity.
  - left. change (py ".sql") with ["."; "s"; "q"; "l"]%char.
    now rewrite stem_of_suffixed by discriminate.
Qed.

Lemma X_listed_stem_witness :
  stem_of (py "csa_failed_logins.sql") ++ py ".sql"
  = py "csa_failed_logins.sql".
Proof.
  destruct (X_listed_stem
              (find [py "backends"; py "bigquery"; py "sql"]
                    Scenario.upstream)
              [py "csa_failed_logins.sql"] (or_introl eq_refl))
    as [E|[E _]].
  - symmetry. exact E.
  - discriminate E.
Defined.

(** ** Process output *)

Lemma decode_utf8_seven_bit bs :
  seven_bit bs = true -> decode_utf8 bs = Some (map Byte.to_N bs).
Proof.
  unfold seven_bit. induction bs as [|b bs IH]; intros H; [reflexivity|].
  cbn [forallb] in H. apply andb_prop in H as [Hb H].
  cbn [decode_utf8 map]. rewrite Hb, IH by exact H. reflexivity.
Qed.

(** X14, lines 76-85: when the captured output is 7-bit text, decoding never
    fails: after exit code 0 [run_command] returns the standard output
    byte for byte, otherwise it raises [Exception] with the standard error,
    byte for byte, between the colour codes; the file system is the one the
    process left. *)
Theorem X_run_command_seven_bit
        (subprocess_run : list str -> M CompletedProcess)
        (arguments : list str) (fs fs1 : node) (cp : CompletedProcess) :
  subprocess_run arguments fs = (inr cp, fs1) ->
  seven_bit (stdout cp) = true ->
  seven_bit (stderr cp) = true ->
  run_command subprocess_run arguments fs
  = if (returncode cp =? 0)%Z
    then (inr (map Byte.to_N (stdout cp)), fs1)
    else (inl (Exception (ForeColor.RED ++ map Byte.to_N (stderr cp)
                            ++ ForeColor.RESET)), fs1).
Proof.
  intros H O E. unfold run_command. unfold bind at 1. rewrite H.
  destruct (returncode cp =? 0)%Z; cbn [negb].
  - unfold lift, decode. now rewrite decode_utf8_seven_bit.
  - unfold bind, lift, decode, raise. now rewrite decode_utf8_seven_bit.
Qed.

Lemma X_run_command_seven_bit_witness :
  run_command Scenario.gh_fails [py "gh"; py "repo"; py "clone"] (Dir [])
  = (inl (Exception (ForeColor.RED
                       ++ code_points (py "fatal: not logged in")
                       ++ ForeColor.RESET)),
     Dir []).
Proof.
  refine (eq_trans
            (X_run_command_seven_bit Scenario.gh_fails
               [py "gh"; py "repo"; py "clone"] (Dir []) (Dir [])
               _ eq_refl eq_refl eq_refl) _).
  reflexivity.
Defined.

(** ** Where a run writes *)

Lemma diverge_below p r q : diverge p q = true -> diverge (p ++ r) q = true.
Proof.
  revert q. induction p as [|a p IH]; intros q H; [discriminate|].
  destruct q as [|b q]; [discriminate|].
  cbn [app diverge] in *. destruct (str_eqb a b); [now apply IH | reflexivity].
Qed.

Lemma parse_segment_valid s :
  Forall (fun c => valid_name c = true) (parse_segment s).
Proof.
  unfold parse_segment. apply Forall_forall. intros c I.
  apply filter_In in I as [I _]. apply valid_name_spec.
  pose proof (split_all_pieces "/" s) as F. rewrite Forall_forall in F.
  now apply F.
Qed.

Lemma locate_below cwd p r :
  Forall (fun c => valid_name c = true) r ->
  locate cwd (p ++ r) = locate cwd p ++ r.
Proof.
  intros F. destruct p as [|a p].
  - destruct r as [|b r]; cbn [app locate].
    + now rewrite app_nil_r.
    + inversion F as [|? ? V _]; subst.
      rewrite (str_eqb_neq b (py "/")); [reflexivity|].
      intros ->. discriminate V.
  - cbn [locate app]. destruct (str_eqb a (py "/")); [reflexivity|].
    now rewrite <- app_assoc.
Qed.

Section Confined.

Variable cwd : location.
Variable subprocess_run : list str -> M CompletedProcess.
Variable safe_dump : yaml -> str.
Variable G : location.

Lemma confined_still {A} (c : M A) :
  (forall fs, snd (c fs) = fs) -> confined G c.
Proof. intros H fs q _. now rewrite H. Qed.

Lemma confined_bind {A B} (c : M A) (k : A -> M B) :
  confined G c -> (forall a, confined G (k a)) -> confined G (bind c k).
Proof.
  intros Hc Hk fs q D. unfold bind. specialize (Hc fs q D).
  destruct (c fs) as [[e|a] fs']; cbn [snd] in *; [exact Hc|].
  now rewrite (Hk a fs' q D).
Qed.

Lemma confined_run_update f p r :
  locate cwd p = G ++ r -> confined G (run_update cwd f p).
Proof.
  intros L fs q D. unfold run_update.
  destruct (refusal cwd p fs); [reflexivity|].
  destruct (update f (locate cwd p) fs) as [e|n] eqn:U; [reflexivity|].
  cbn [snd]. eapply update_diverge; [|exact U].
  rewrite L. now apply diverge_below.
Qed.

Lemma confined_rmtree p r :
  locate cwd p = G ++ r -> confined G (rmtree cwd p).
Proof.
  intros L fs q D. unfold rmtree.
  destruct (find (locate cwd p) fs) as [[data|es|]|];
    try apply (confined_run_update rmtree_entry p r L fs q D).
  destruct p as [|a p].
  - cbn [snd]. rewrite L. apply find_graft_diverge. now apply diverge_below.
  - destruct (locate cwd (a :: p)) as [|b loc] eqn:E.
    + symmetry in L. apply app_eq_nil in L as [-> _]. discriminate D.
    + apply (confined_run_update rmtree_entry (a :: p) r);
        [now rewrite E | exact D].
Qed.

Lemma exists_still p fs : snd (exists_ cwd p fs) = fs.
Proof. unfold exists_. now destruct (refusal cwd p fs) as [[| | |]|]. Qed.

Lemma glob_sql_still p fs : snd (glob_sql cwd p fs) = fs.
Proof. unfold glob_sql. now destruct (refusal cwd p fs) as [[| | |]|]. Qed.

Lemma read_text_still p fs : snd (read_text cwd p fs) = fs.
Proof.
  unfold read_text. now destruct (find (locate cwd p) fs) as [[| |]|].
Qed.

Lemma confined_for_each {A S} (xs : list A) (body : A -> S -> M S) :
  (forall x acc, confined G (body x acc)) ->
  forall acc, confined G (for_each xs body acc).
Proof.
  intros H. induction xs as [|x xs IH]; intros acc.
  - now apply confined_still.
  - cbn [for_each]. apply confined_bind; [apply H | exact IH].
Qed.

Lemma confined_reset_domain gp :
  locate cwd gp = G -> confined G (reset_domain cwd gp).
Proof.
  intros L. unfold reset_domain.
  apply confined_bind; [apply confined_still, exists_still|].
  intros present. apply confined_bind.
  { destruct present; [|now apply confined_still].
    apply (confined_rmtree gp []). now rewrite app_nil_r. }
  intros _. apply confined_bind.
  { apply (confined_run_update mkdir_entry gp []). now rewrite app_nil_r. }
  intros _. apply (confined_run_update mkdir_entry _ [py "queries"]).
  pose proof queries_component as Cq.
  rewrite joinpath_components by components.
  rewrite <- L. apply locate_app. components.
Qed.

Lemma confined_write_below gp segs data :
  locate cwd gp = G ->
  Forall (fun s => startswith (py "/") s = false) segs ->
  confined G (write_text cwd (joinpath gp segs) data).
Proof.
  intros L F. unfold write_text.
  apply (confined_run_update _ _ (flat_map parse_segment segs)).
  rewrite joinpath_relative by exact F. rewrite <- L.
  apply locate_below. apply Forall_forall. intros c I.
  apply in_flat_map in I as (s & _ & I).
  pose proof (parse_segment_valid s) as V. rewrite Forall_forall in V.
  now apply V.
Qed.

Lemma confined_transform args gp domain f scope :
  locate cwd gp = G ->
  confined G (transform cwd safe_dump args gp (dataset_name domain) f scope).
Proof.
  intros L. unfold transform.
  apply confined_bind; [apply confined_still, read_text_still|].
  intros body. apply confined_bind; [now apply confined_still|].
  intros sql_rel. apply confined_bind.
  { apply confined_write_below; [exact L|].
    apply Forall_cons; [|apply Forall_nil].
    apply csa_not_rooted, valid_dataset_name. }
  intros _. apply confined_bind; [|intros _; now apply confined_still].
  apply confined_write_below; [exact L|].
  apply Forall_cons; [reflexivity|]. apply Forall_cons; [|apply Forall_nil].
  apply csa_not_rooted, valid_dataset_name.
Qed.

End Confined.

(** X1, lines 104-129: whatever the file tree holds and whether the run returns
    or raises, after the clone command a run whose domain directory is
    named without [..] changes nothing apart from the domain directory:
    every location that parts ways with it holds at the end what the clone
    command left there. *)
Theorem X_run_confined_to_domain
        (cwd : location) (subprocess_run : list str -> M CompletedProcess)
        (safe_dump : yaml -> str) (T : path) (args : Namespace)
        (fs : node) (q : location) :
  plain (grizzly_path_of args) = true ->
  diverge (locate cwd (grizzly_path_of args)) q = true ->
  find q (snd (main cwd subprocess_run safe_dump T args fs))
  = find q (snd (run_command subprocess_run (clone_command T) fs)).
Proof.
  intros _ D. unfold main. fold (clone_command T).
  change (Path [grizzly_repo_path args; domain_name args])
    with (grizzly_path_of args).
  unfold bind at 1.
  destruct (run_command subprocess_run (clone_command T) fs)
    as [[e|out] fs1]; [reflexivity|].
  cbn [snd].
  refine (confined_bind _ _ _ _ _ fs1 q D).
  - now apply confined_reset_domain.
  - intros _. apply confined_bind;
      [apply confined_still, glob_sql_still|].
    intros files. apply confined_bind.
    + apply confined_for_each. intros f acc.
      now apply confined_transform.
    + intros scope. apply confined_write_below;
        [reflexivity | now repeat constructor].
Qed.

Lemma X_run_confined_to_domain_witness :
  find [py "tmp"; py "csa.k3v9q2x1"; py "README.md"]
       (snd (main [] Scenario.gh_clone Scenario.toy_dump Scenario.TEMP_DIR
                  Scenario.args Scenario.disk))
  = Some (File (py "Community Security Analytics")).
Proof.
  refine (eq_trans
            (X_run_confined_to_domain [] Scenario.gh_clone Scenario.toy_dump
               Scenario.TEMP_DIR Scenario.args Scenario.disk
               [py "tmp"; py "csa.k3v9q2x1"; py "README.md"]
               eq_refl eq_refl) _).
  reflexivity.
Defined.

(** ** Runs that stop early *)

Lemma find_below_missing q r n : find q n = None -> find (q ++ r) n = None.
Proof. intros H. now rewrite find_app, H. Qed.

Lemma stat_errno_missing q r n :
  find q n = None -> stat_errno (q ++ r) n = stat_errno q n.
Proof.
  revert n. induction q as [|a q IH]; intros n H; [discriminate|].
  cbn [find app stat_errno] in *. destruct n as [data|es|]; try reflexivity.
  destruct (assoc a es) as [n1|]; [now apply IH | reflexivity].
Qed.

Lemma update_below_missing f q c n :
  find q n = None -> stat_errno q n <> ENAMETOOLONG ->
  update f (q ++ [c]) n = inl (OSError (stat_errno q n)).
Proof.
  revert n. induction q as [|a q IH]; intros n H S; [discriminate|].
  change ((a :: q) ++ [c]) with (a :: (q ++ [c])).
  rewrite update_step by (now destruct q).
  cbn [find stat_errno] in *. destruct n as [data|es|]; try reflexivity.
  destruct (assoc a es) as [n1|].
  - now rewrite IH.
  - destruct (too_long a); [contradiction | reflexivity].
Qed.

Lemma update_below_file f q c n :
  on_the_way (find q n) = true ->
  update f (q ++ [c]) n = inl (OSError ENOTDIR)
  /\ find (q ++ [c]) n = None
  /\ stat_errno (q ++ [c]) n = ENOTDIR.
Proof.
  revert n. induction q as [|a q IH]; intros n H.
  - cbn in H. destruct n as [data|es|]; try discriminate H; auto.
  - change ((a :: q) ++ [c]) with (a :: (q ++ [c])).
    rewrite update_step by (now destruct q).
    cbn [find stat_errno] in *. destruct n as [data|es|]; try discriminate H.
    destruct (assoc a es) as [n1|]; [|discriminate H].
    destruct (IH _ H) as (-> & -> & ->). auto.
Qed.


Section Early.

Variable cwd : location.
Variable subprocess_run : list str -> M CompletedProcess.
Variable safe_dump : yaml -> str.

(** X2, lines 105-107: [mkdir] does not create parents.  When the parent of the
    domain directory, named plainly and without a NUL character, is
    missing or is a regular file, the run raises [OSError] with the errno
    of the failed look-up of the parent ([FileNotFoundError] for a missing
    entry, [NotADirectoryError] for a file on the way, [ENAMETOOLONG] for a
    missing name that is too long) and the file system is the one the
    clone command left. *)
Theorem X_parent_must_exist (T : path) (args : Namespace) (fs fs1 : node)
        (out : text) (q : location) (c : str) :
  run_command subprocess_run (clone_command T) fs = (inr out, fs1) ->
  plain_paths cwd T args fs1 = true ->
  has_nul (grizzly_path_of args) = false ->
  locate cwd (grizzly_path_of args) = q ++ [c] ->
  (find q fs1 = None ->
   main cwd subprocess_run safe_dump T args fs
   = (inl (OSError (stat_errno q fs1)), fs1))
  /\ (on_the_way (find q fs1) = true ->
      main cwd subprocess_run safe_dump T args fs
      = (inl (OSError ENOTDIR), fs1)).
Proof.
  intros HR _ N L.
  assert (forall e,
             find (q ++ [c]) fs1 = None ->
             stat_errno (q ++ [c]) fs1 <> ENAMETOOLONG ->
             update mkdir_entry (q ++ [c]) fs1 = inl e ->
             main cwd subprocess_run safe_dump T args fs = (inl e, fs1)) as K.
  { intros e HN HS HU.
    assert (refusal cwd (grizzly_path_of args) fs1 = None) as R.
    { unfold refusal. rewrite L, HN, N.
      now destruct (stat_errno (q ++ [c]) fs1). }
    unfold main. fold (clone_command T).
    change (Path [grizzly_repo_path args; domain_name args])
      with (grizzly_path_of args).
    unfold bind at 1. rewrite HR. unfold bind at 1.
    unfold reset_domain. unfold bind at 1. unfold exists_.
    rewrite R, L, HN. unfold bind at 1. unfold ret. unfold bind at 1.
    unfold mkdir, run_update. now rewrite R, L, HU. }
  split.
  - intros HN.
    pose proof (find_below_missing q [c] fs1 HN) as HN'.
    pose proof (stat_errno_missing q [c] fs1 HN) as HS.
    destruct (stat_errno q fs1) eqn:E;
      try (apply K;
           [ exact HN' | rewrite HS; discriminate
           | rewrite <- E; apply update_below_missing;
             [exact HN | rewrite E; discriminate] ]).
    unfold main. fold (clone_command T).
    change (Path [grizzly_repo_path args; domain_name args])
      with (grizzly_path_of args).
    unfold bind at 1. rewrite HR. unfold bind at 1.
    unfold reset_domain. unfold bind at 1. unfold exists_, refusal.
    now rewrite L, HN', N, HS.
  - intros HF. destruct (update_below_file mkdir_entry q c fs1 HF)
      as (HU & HN & HS).
    apply K; [exact HN | rewrite HS; discriminate | exact HU].
Qed.


(** X4, lines 110-129: the listing also yields what is no text file: a
    directory whose name ends in [.sql], on which [read_text] raises
    [IsADirectoryError], or a file whose bytes do not decode, on which it
    raises [UnicodeDecodeError].  A run, from paths that are plain and
    apart, whose listing holds such a path does not return: it raises. *)
Theorem X_directory_among_scripts (T : path) (args : Namespace)
        (fs fs1 : node) (out : text) (rel : location) :
  run_command subprocess_run (clone_command T) fs = (inr out, fs1) ->
  apart cwd T args fs1 = true ->
  In rel (listing (find (locate cwd (sql_dir_of T)) fs1)) ->
  is_file (find_in (find (locate cwd (sql_dir_of T)) fs1) rel) = false ->
  raises (main cwd subprocess_run safe_dump T args fs).
Proof.
  intros HR A I NF.
  destruct (main cwd subprocess_run safe_dump T args fs) as [[e|[]] fs']
    eqn:HM; [exact Logic.I|].
  destruct (main_post cwd subprocess_run safe_dump T args fs out fs1 fs'
              HR A HM) as (_ & _ & _ & _ & _ & _ & _ & Fi).
  rewrite Forall_forall in Fi. specialize (Fi rel I). congruence.
Qed.

End Early.

Lemma X_parent_must_exist_witness :
  main [] Scenario.gh_clone Scenario.toy_dump Scenario.TEMP_DIR
       Scenario.args Cases.disk_without_team
  = (inl (OSError ENOENT),
     snd (Scenario.gh_clone (clone_command Scenario.TEMP_DIR)
                            Cases.disk_without_team)).
Proof.
  exact (proj1 (X_parent_must_exist [] Scenario.gh_clone Scenario.toy_dump
                  Scenario.TEMP_DIR Scenario.args Cases.disk_without_team
                  (snd (Scenario.gh_clone (clone_command Scenario.TEMP_DIR)
                                          Cases.disk_without_team))
                  [] [py "repo"; py "team"] (py "bas_csa")
                  eq_refl eq_refl eq_refl eq_refl)
               eq_refl).
Defined.


Lemma X_directory_among_scripts_witness :
  raises (main [] (Cases.gh_clone_of Cases.with_directory) Scenario.toy_dump
               Scenario.TEMP_DIR Scenario.args Scenario.disk)
  /\ raises (main [] (Cases.gh_clone_of Cases.with_binary) Scenario.toy_dump
                  Scenario.TEMP_DIR Scenario.args Scenario.disk).
Proof.
  split.
  - exact (X_directory_among_scripts [] (Cases.gh_clone_of Cases.with_directory)
             Scenario.toy_dump Scenario.TEMP_DIR Scenario.args Scenario.disk
             (snd (Cases.gh_clone_of Cases.with_directory
                     (clone_command Scenario.TEMP_DIR) Scenario.disk))
             [] [py "2_02_archive.sql"]
             eq_refl eq_refl (or_intror (or_introl eq_refl)) eq_refl).
  - exact (X_directory_among_scripts [] (Cases.gh_clone_of Cases.with_binary)
             Scenario.toy_dump Scenario.TEMP_DIR Scenario.args Scenario.disk
             (snd (Cases.gh_clone_of Cases.with_binary
                     (clone_command Scenario.TEMP_DIR) Scenario.disk))
             [] [py "1_01_logins.sql"]
             eq_refl eq_refl (or_introl eq_refl) eq_refl).
Defined.

(** ** What a complete run leaves *)

Lemma keys_set_entry c n es k :
  In k (keys (set_entry c n es)) <-> k = c \/ In k (keys es).
Proof.
  unfold keys. induction es as [|[a m] es IH]; cbn [set_entry map fst In].
  - intuition congruence.
  - destruct (str_eqb a c) eqn:E; cbn [map fst In].
    + apply str_eqb_eq in E. subst a. intuition congruence.
    + rewrite IH. intuition congruence.
Qed.

Lemma NoDup_set_entry c n es :
  NoDup (keys es) -> NoDup (keys (set_entry c n es)).
Proof.
  induction es as [|[a m] es IH]; intros H; cbn [set_entry].
  - repeat constructor. intros [].
  - destruct (str_eqb a c) eqn:E; [exact H|].
    unfold keys in *. cbn [map fst] in *. inversion H as [|? ? Ha Hes]; subst.
    constructor; [|now apply IH].
    intros I. apply keys_set_entry in I as [->|I]; [|contradiction].
    now rewrite str_eqb_refl in E.
Qed.

Section Inventory.

Variable X : Type.
Variable nm : X -> str.
Variable data : X -> str.
Variable step : entries_t -> X -> entries_t.
Hypothesis step_sets :
  forall es s, step es s = set_entry (nm s) (File (data s)) es.

Lemma fold_keys ss es k :
  In k (keys (fold_left step ss es))
  <-> In k (keys es) \/ exists s, In s ss /\ k = nm s.
Proof.
  revert es. induction ss as [|s ss IH]; intros es; cbn [fold_left].
  - split; [now left | intros [H|(s & [] & _)]; exact H].
  - rewrite IH, step_sets, keys_set_entry. split.
    + intros [[->|H]|(t & I & ->)]; eauto.
      * right. exists s. split; [now left | reflexivity].
      * right. exists t. split; [now right | reflexivity].
    + intros [H|(t & [<-|I] & ->)]; eauto.
Qed.

Lemma fold_NoDup ss es :
  NoDup (keys es) -> NoDup (keys (fold_left step ss es)).
Proof.
  revert es. induction ss as [|s ss IH]; intros es H; [exact H|].
  cbn [fold_left]. apply IH. rewrite step_sets. now apply NoDup_set_entry.
Qed.

Lemma fold_all_files ss es :
  all_files es -> all_files (fold_left step ss es).
Proof.
  revert es. induction ss as [|s ss IH]; intros es H; [exact H|].
  cbn [fold_left]. apply IH. rewrite step_sets. now apply all_files_set.
Qed.

End Inventory.

Section Complete.

Variable cwd : location.
Variable subprocess_run : list str -> M CompletedProcess.
Variable safe_dump : yaml -> str.

(** X5, lines 104-129: after a run, from paths that are plain and apart, that
    returns, the domain directory holds [queries], then one descriptor for
    each distinct derived name, then [SCOPE.yml], and nothing else;
    [queries] holds one regular file for each distinct derived name and
    nothing else.  So nothing from before the run is left. *)
Theorem X_domain_inventory (T : path) (args : Namespace) (fs fs1 fs' : node)
        (out : text) :
  run_command subprocess_run (clone_command T) fs = (inr out, fs1) ->
  apart cwd T args fs1 = true ->
  main cwd subprocess_run safe_dump T args fs = (inr tt, fs') ->
  let clone := find (locate cwd (sql_dir_of T)) fs1 in
  let name_of := fun rel =>
    csa_file_name (dataset_name (domain_name args)) (stem_of (last rel [])) in
  exists Q Y manifest,
    find (locate cwd (grizzly_path_of args)) fs'
    = Some (Dir ((py "queries", Dir Q)
                   :: Y ++ [(py "SCOPE.yml", File manifest)]))
    /\ all_files Q /\ all_files Y
    /\ NoDup (keys Q)
    /\ NoDup (py "queries" :: keys Y ++ [py "SCOPE.yml"])
    /\ (forall k, In k (keys Q)
                  <-> exists rel, In rel (listing clone)
                                  /\ k = name_of rel ++ py ".sql")
    /\ (forall k, In k (keys Y)
                  <-> exists rel, In rel (listing clone)
                                  /\ k = name_of rel ++ py ".yml").
Proof.
  intros HR A HM clone name_of.
  destruct (main_post cwd subprocess_run safe_dump T args fs out fs1 fs'
              HR A HM)
    as (_ & _ & _ & _ & _ & HD & _).
  fold clone in HD.
  assert (forall ext k,
             (exists s, In s (scripts clone) /\ k = derived args s ++ ext)
             <-> exists rel, In rel (listing clone) /\ k = name_of rel ++ ext)
    as Names.
  { intros ext k. unfold scripts. split.
    - intros (s & I & ->). apply in_map_iff in I as (rel & <- & I).
      now exists rel.
    - intros (rel & I & ->).
      exists (stem_of (last rel []), body_of (find_in clone rel)).
      split; [|reflexivity]. apply in_map_iff. now exists rel. }
  exists (queries_entries args (scripts clone)),
         (descriptor_entries safe_dump args (scripts clone)),
         (safe_dump (scope_with args (map (derived args) (scripts clone)))).
  split; [exact HD|].
  assert (forall k,
             In k (keys (descriptor_entries safe_dump args (scripts clone)))
             <-> exists rel, In rel (listing clone)
                             /\ k = name_of rel ++ py ".yml") as KY.
  { intros k. unfold descriptor_entries.
    rewrite (fold_keys _ (fun s => derived args s ++ py ".yml")
               (fun s => safe_dump (descriptor (derived args s)))
               (add_descriptor safe_dump args) (fun _ _ => eq_refl)).
    rewrite Names. cbn [keys map In]. intuition. }
  repeat split.
  - apply (fold_all_files _ (fun s => derived args s ++ py ".sql")
             (fun s => sql_file_data (source_dataset args) (snd s))
             (add_query args) (fun _ _ => eq_refl)).
    constructor.
  - apply (fold_all_files _ (fun s => derived args s ++ py ".yml")
             (fun s => safe_dump (descriptor (derived args s)))
             (add_descriptor safe_dump args) (fun _ _ => eq_refl)).
    constructor.
  - apply (fold_NoDup _ (fun s => derived args s ++ py ".sql")
             (fun s => sql_file_data (source_dataset args) (snd s))
             (add_query args) (fun _ _ => eq_refl)).
    constructor.
  - constructor.
    + intros I. apply in_app_or in I as [I|[I|[]]]; [|discriminate I].
      apply KY in I as (rel & _ & E).
      symmetry in E. now apply yml_not_queries in E.
    + apply NoDup_app; [| repeat constructor; intros [] |].
      * apply (fold_NoDup _ (fun s => derived args s ++ py ".yml")
                 (fun s => safe_dump (descriptor (derived args s)))
                 (add_descriptor safe_dump args) (fun _ _ => eq_refl)).
        constructor.
      * intros k I [<-|[]]. apply KY in I as (rel & _ & E).
        symmetry in E. now apply scope_not_descriptor in E.
  - intros I. unfold queries_entries in I.
    rewrite (fold_keys _ (fun s => derived args s ++ py ".sql")
               (fun s => sql_file_data (source_dataset args) (snd s))
               (add_query args) (fun _ _ => eq_refl)) in I.
    destruct I as [[]|I]. now apply Names.
  - intros I. unfold queries_entries.
    rewrite (fold_keys _ (fun s => derived args s ++ py ".sql")
               (fun s => sql_file_data (source_dataset args) (snd s))
               (add_query args) (fun _ _ => eq_refl)).
    right. now apply Names.
  - now apply KY.
  - now apply KY.
Qed.

End Complete.

Lemma X_domain_inventory_witness :
  exists Q Y manifest,
    find [py "repo"; py "team"; py "bas_csa"]
         (snd (main [] Scenario.gh_clone_twins Scenario.toy_dump
                    Scenario.TEMP_DIR Scenario.args Scenario.disk))
    = Some (Dir ((py "queries", Dir Q)
                   :: Y ++ [(py "SCOPE.yml", File manifest)]))
    /\ NoDup (keys Q).
Proof.
  destruct (X_domain_inventory [] Scenario.gh_clone_twins Scenario.toy_dump
              Scenario.TEMP_DIR Scenario.args Scenario.disk
              (snd (Scenario.gh_clone_twins (clone_command Scenario.TEMP_DIR)
                                            Scenario.disk))
              (snd (main [] Scenario.gh_clone_twins Scenario.toy_dump
                         Scenario.TEMP_DIR Scenario.args Scenario.disk))
              [] eq_refl eq_refl eq_refl)
    as (Q & Y & manifest & HD & _ & _ & HN & _).
  exists Q, Y, manifest. split; assumption.
Defined.

(** ** A clone inside the domain directory *)

Lemma listing_of_fresh_domain r :
  listing (find r (Dir [(py "queries", Dir [])])) = [].
Proof.
  destruct r as [|c r]; [reflexivity|].
  cbn [find assoc]. destruct (str_eqb (py "queries") c); [|reflexivity].
  destruct r as [|c' r]; reflexivity.
Qed.

Section Inside.

Variable cwd : location.
Variable subprocess_run : list str -> M CompletedProcess.
Variable safe_dump : yaml -> str.

(** X6, lines 104-129: when the clone's script directory is the domain
    directory or lies inside it, the paths being plain, resetting the
    domain removes the clone before it is listed: a run that returns
    has copied no script, and the domain directory holds an empty
    [queries] and a [SCOPE.yml] whose [etl_scope] is empty. *)
Theorem X_clone_inside_domain (T : path) (args : Namespace)
        (fs fs1 fs' : node) (out : text) (r : location) :
  run_command subprocess_run (clone_command T) fs = (inr out, fs1) ->
  plain_paths cwd T args fs1 = true ->
  locate cwd (sql_dir_of T) = locate cwd (grizzly_path_of args) ++ r ->
  main cwd subprocess_run safe_dump T args fs = (inr tt, fs') ->
  find (locate cwd (grizzly_path_of args)) fs'
  = Some (Dir [ (py "queries", Dir []);
                (py "SCOPE.yml",
                 File (safe_dump
                         (YMap
                            [ (py "schedule_interval",
                               YStr (schedule_interval args));
                              (py "execution_timeout_per_table",
                               YInt 1200);
                              (py "etl_scope", YSeq []) ]))) ]).
Proof.
  intros HR _ L H.
  rewrite main_steps in H. unfold bind at 1 in H. rewrite HR in H.
  unfold bind at 1 in H.
  destruct (reset_domain cwd (grizzly_path_of args) fs1)
    as [[e|[]] fs2] eqn:HS; [discriminate H|].
  destruct (reset_domain_post cwd _ _ _ HS) as (HG2 & _).
  pose proof scope_component as Cs.
  unfold copy_scripts in H.
  change (Path [grizzly_repo_path args; domain_name args])
    with (grizzly_path_of args) in H.
  change (joinpath T [py "backends"; py "bigquery"; py "sql"])
    with (sql_dir_of T) in H.
  unfold bind at 1 in H. unfold glob_sql in H.
  rewrite L, find_app, HG2, listing_of_fresh_domain in H.
  assert (write_text cwd (joinpath (grizzly_path_of args) [py "SCOPE.yml"])
            (safe_dump (csa_scope_init (schedule_interval args))) fs2
          = (inr tt, fs')) as W.
  { destruct (refusal cwd (sql_dir_of T) fs2) as [[| | |e]|];
      try discriminate H; exact H. }
  rewrite joinpath_components in W by components.
  apply (run_update_returns cwd) in W as [_ U].
  rewrite (locate_app cwd _ [py "SCOPE.yml"] ltac:(components)) in U.
  rewrite (update_app _ (locate cwd (grizzly_path_of args)) [py "SCOPE.yml"]
             fs2 _ HG2 ltac:(discriminate)) in U.
  rewrite update_leaf in U. cbn [assoc] in U.
  rewrite (str_eqb_neq (py "queries") (py "SCOPE.yml")) in U by discriminate.
  cbn [write_entry] in U.
  apply (f_equal (fun r => match r with inr n => n | inl _ => fs2 end)) in U.
  cbv beta iota in U. subst fs'.
  rewrite find_graft_same by congruence. reflexivity.
Qed.

End Inside.

Lemma X_clone_inside_domain_witness :
  find [py "tmp"]
       (snd (main [] Scenario.gh_clone Scenario.toy_dump Scenario.TEMP_DIR
                  Cases.args_tmp Scenario.disk))
  = Some (Dir [ (py "queries", Dir []);
                (py "SCOPE.yml",
                 File (Scenario.toy_dump (scope_with Cases.args_tmp []))) ]).
Proof.
  exact (X_clone_inside_domain [] Scenario.gh_clone Scenario.toy_dump
           Scenario.TEMP_DIR Cases.args_tmp Scenario.disk
           (snd (Scenario.gh_clone (clone_command Scenario.TEMP_DIR)
                                   Scenario.disk))
           (snd (main [] Scenario.gh_clone Scenario.toy_dump
                      Scenario.TEMP_DIR Cases.args_tmp Scenario.disk))
           [] [py "csa.k3v9q2x1"; py "backends"; py "bigquery"; py "sql"]
           eq_refl eq_refl eq_refl eq_refl).
Defined.
